(** * Verification of the Titan API example programs

    Shallow embeddings of:
    - the backend WebSocket proxy ([validateUserToken], [connectToTitan],
      [handleClientConnection]),
    - the reconnection loop [connectWithRetry] documented in SKILL.md,
    - the inbound message handler of [streamQuotesRaw]
      (examples/stream-quotes-raw-ws.ts). *)

From Stdlib Require Import List String Ascii ZArith NArith Bool Lia SpecFloat.
Import ListNotations.

Set Warnings "-register-all".

(** JavaScript strings are sequences of UTF-16 code units; [length] and
    [substring] count code units. *)
Definition jsstr := list N.

Definition js (s : string) : jsstr :=
  map (fun a => N.of_nat (nat_of_ascii a)) (list_ascii_of_string s).

(** Raw WebSocket payloads ([RawData]) are byte strings. *)
Definition RawData := list Byte.byte.

(** ws readyState values. *)
Inductive ReadyState := CONNECTING | OPEN | CLOSING | CLOSED.

Definition rs_eqb (a b : ReadyState) : bool :=
  match a, b with
  | CONNECTING, CONNECTING | OPEN, OPEN | CLOSING, CLOSING
  | CLOSED, CLOSED => true
  | _, _ => false
  end.

(** [ws.close()]: a connecting socket is aborted, an open one starts the
    closing handshake, a closing or closed one is left alone. *)
Definition ws_close (r : ReadyState) : ReadyState :=
  match r with
  | CONNECTING => CLOSED
  | OPEN => CLOSING
  | CLOSING => CLOSING
  | CLOSED => CLOSED
  end.

Module Proxy.

(** ** validateUserToken *)

Record AuthResult := mkAuth { valid : bool; userId : jsstr }.

(** [token : string | null]; [!token] holds for [null] and for [""]. *)
Definition validateUserToken (token : option jsstr) : AuthResult :=
  match token with
  | None => mkAuth false (js "")
  | Some t =>
      match t with
      | [] => mkAuth false (js "")
      | _ =>
          if (List.length t <? 10)%nat then mkAuth false (js "")
          else mkAuth true (js "user_" ++ firstn 8 t)
      end
  end.

(** ** handleClientConnection

    Observable effects of one connection handler, in order. *)
Inductive Action :=
  | AValidate (token : option jsstr)        (* validateUserToken(userToken) *)
  | ACloseClient (code : Z) (reason : string) (* clientWs.close(code, reason) *)
  | ADial                                    (* new WebSocket(WS_URL?auth=AUTH_TOKEN) *)
  | ATerminateTitan                          (* ws.terminate() in connectToTitan *)
  | ASetConn                                 (* connections.set(clientId, ...) *)
  | ASendTitan (d : RawData)                 (* titanWs.send(data) *)
  | ASendClient (d : RawData)                (* clientWs.send(data) *)
  | ACloseTitan                              (* titanWs.close() *)
  | ADeleteConn.                             (* connections.delete(clientId) *)

(** Where the async handler is suspended. *)
Inductive Phase :=
  | PDialing (uid : jsstr)  (* awaiting connectToTitan() *)
  | PRelaying               (* listeners attached *)
  | PReturned               (* handler returned without a pairing *)
  | PCrashed.               (* an 'error' event with no listener was thrown *)

Record PState := mkP {
  phase : Phase;
  client_rs : ReadyState;
  titan_rs : option ReadyState;            (* None: never dialed *)
  conns : list (string * jsstr);           (* connections: clientId -> userId *)
  trace : list Action
}.

(** Events delivered by the event loop to this connection. *)
Inductive Event :=
  | EClientMessage (d : RawData)
  | EClientClose
  | EClientError
  | ETitanOpen
  | ETitanMessage (d : RawData)
  | ETitanClose
  | ETitanError
  | ETitanTimeout.   (* the 10 s timer of connectToTitan *)

Definition map_set (k : string) (v : jsstr) (m : list (string * jsstr)) :=
  if existsb (fun p => String.eqb (fst p) k) m
  then map (fun p => if String.eqb (fst p) k then (k, v) else p) m
  else m ++ [(k, v)].

Definition map_delete (k : string) (m : list (string * jsstr)) :=
  filter (fun p => negb (String.eqb (fst p) k)) m.

Section Handler.

Variable clientId : string.

(** The synchronous prefix of [handleClientConnection]: the token is
    validated; the continuation after [await] runs in a microtask, before
    any I/O event. *)
Definition handleClientConnection (conns0 : list (string * jsstr))
    (userToken : option jsstr) : PState :=
  let authResult := validateUserToken userToken in
  if negb (valid authResult) then
    mkP PReturned (ws_close OPEN) None conns0
        [AValidate userToken; ACloseClient 4001 "Unauthorized"]
  else
    mkP (PDialing (userId authResult)) OPEN (Some CONNECTING) conns0
        [AValidate userToken; ADial].

Definition emit (s : PState) (acts : list Action) : list Action :=
  trace s ++ acts.

Definition step (s : PState) (e : Event) : PState :=
  match phase s, e with
  (* --- awaiting connectToTitan: no listener on clientWs yet --- *)
  | PDialing _, EClientMessage _ => s
  | PDialing _, EClientClose =>
      mkP (phase s) CLOSED (titan_rs s) (conns s) (trace s)
  | PDialing _, EClientError =>
      mkP PCrashed (client_rs s) (titan_rs s) (conns s) (trace s)
  | PDialing uid, ETitanOpen =>
      (* resolve(ws); connections.set; listeners attached *)
      mkP PRelaying (client_rs s) (Some OPEN) (map_set clientId uid (conns s))
          (emit s [ASetConn])
  | PDialing _, ETitanError =>
      mkP PReturned (ws_close (client_rs s)) (Some CLOSED) (conns s)
          (emit s [ACloseClient 4002 "Failed to connect to upstream"])
  | PDialing _, ETitanClose =>
      mkP (phase s) (client_rs s) (Some CLOSED) (conns s) (trace s)
  | PDialing _, ETitanTimeout =>
      (* readyState !== OPEN: terminate and reject *)
      mkP PReturned (ws_close (client_rs s)) (Some CLOSED) (conns s)
          (emit s [ATerminateTitan;
                   ACloseClient 4002 "Failed to connect to upstream"])
  | PDialing _, ETitanMessage _ => s
  (* --- relaying: the six listeners of handleClientConnection --- *)
  | PRelaying, EClientMessage d =>
      if (match titan_rs s with Some r => rs_eqb r OPEN | None => false end)
      then mkP PRelaying (client_rs s) (titan_rs s) (conns s)
               (emit s [ASendTitan d])
      else s
  | PRelaying, ETitanMessage d =>
      if rs_eqb (client_rs s) OPEN
      then mkP PRelaying (client_rs s) (titan_rs s) (conns s)
               (emit s [ASendClient d])
      else s
  | PRelaying, EClientClose =>
      mkP PRelaying CLOSED (option_map ws_close (titan_rs s))
          (map_delete clientId (conns s)) (emit s [ACloseTitan; ADeleteConn])
  | PRelaying, ETitanClose =>
      mkP PRelaying (ws_close (client_rs s)) (Some CLOSED)
          (map_delete clientId (conns s))
          (emit s [ACloseClient 4003 "Upstream connection closed"; ADeleteConn])
  | PRelaying, EClientError =>
      mkP PRelaying (client_rs s) (option_map ws_close (titan_rs s))
          (map_delete clientId (conns s)) (emit s [ACloseTitan; ADeleteConn])
  | PRelaying, ETitanError =>
      mkP PRelaying (ws_close (client_rs s)) (titan_rs s)
          (map_delete clientId (conns s))
          (emit s [ACloseClient 4004 "Upstream error"; ADeleteConn])
  | PRelaying, ETitanTimeout =>
      match titan_rs s with
      | Some OPEN | Some CLOSED | None => s
      | Some _ => mkP PRelaying (client_rs s) (Some CLOSED) (conns s)
                      (emit s [ATerminateTitan])
      end
  | PRelaying, ETitanOpen => s
  (* --- returned or crashed: only ready states move --- *)
  | _, EClientClose => mkP (phase s) CLOSED (titan_rs s) (conns s) (trace s)
  | _, ETitanClose =>
      mkP (phase s) (client_rs s) (option_map (fun _ => CLOSED) (titan_rs s))
          (conns s) (trace s)
  | _, _ => s
  end.

Definition run (s : PState) (evs : list Event) : PState := fold_left step evs s.

End Handler.

Definition is_validate (a : Action) : bool :=
  match a with AValidate _ => true | _ => false end.

Definition is_dial (a : Action) : bool :=
  match a with ADial => true | _ => false end.

(** Frames written to the upstream and the downstream socket, in order. *)
Definition upstream_frames (tr : list Action) : list RawData :=
  flat_map (fun a => match a with ASendTitan d => [d] | _ => [] end) tr.

Definition downstream_frames (tr : list Action) : list RawData :=
  flat_map (fun a => match a with ASendClient d => [d] | _ => [] end) tr.

(** Frames received from the downstream and the upstream peer, in order. *)
Definition client_frames (evs : list Event) : list RawData :=
  flat_map (fun e => match e with EClientMessage d => [d] | _ => [] end) evs.

Definition titan_frames (evs : list Event) : list RawData :=
  flat_map (fun e => match e with ETitanMessage d => [d] | _ => [] end) evs.

Definition is_message (e : Event) : bool :=
  match e with EClientMessage _ | ETitanMessage _ => true | _ => false end.

Definition is_close_titan (a : Action) : bool :=
  match a with ACloseTitan | ATerminateTitan => true | _ => false end.

(** The action by which an event closes the other side. *)
Definition closes_peer (e : Event) (a : Action) : Prop :=
  match e with
  | EClientClose | EClientError => a = ACloseTitan
  | ETitanClose | ETitanError => exists code reason, a = ACloseClient code reason
  | _ => False
  end.

(** The entries of the connections map stored under key [k], in order. *)
Definition entries_for (k : string) (m : list (string * jsstr)) :=
  filter (fun p => String.eqb (fst p) k) m.

End Proxy.

Module Connect.

(** ** connectToTitan

    The promise returned by [connectToTitan]: [ws.on("open", () =>
    resolve(ws))], [ws.on("error", reject)] and a 10 s [setTimeout] that
    terminates the socket and rejects when it is not OPEN.  A promise
    settles once; later [resolve]/[reject] calls are no-ops. *)

Definition CONNECT_TIMEOUT_MS : Z := 10000.

Inductive Reason := RError (e : nat) | RTimedOut.

Inductive Settle := Pending | Resolved | Rejected (r : Reason).

(** Events the upstream socket emits. *)
Inductive SockEv := SOpen | SError (e : nat) | SClose.

Record CState := mkC { rs : ReadyState; promise : Settle; terminated : bool }.

Definition init : CState := mkC CONNECTING Pending false.

Definition settle (p : Settle) (v : Settle) : Settle :=
  match p with Pending => v | _ => p end.

Definition step (s : CState) (e : SockEv) : CState :=
  match e with
  | SOpen => mkC OPEN (settle (promise s) Resolved) (terminated s)
  | SError x => mkC (ws_close (rs s)) (settle (promise s) (Rejected (RError x)))
                    (terminated s)
  | SClose => mkC CLOSED (promise s) (terminated s)
  end.

(** The timer callback, run [CONNECT_TIMEOUT_MS] after dialing. *)
Definition on_timeout (s : CState) : CState :=
  if negb (rs_eqb (rs s) OPEN)
  then mkC CLOSED (settle (promise s) (Rejected RTimedOut)) true
  else s.

(** [before]: the socket events emitted before the timer fires;
    [after]: those emitted afterwards. *)
Definition connectToTitan (before after : list SockEv) : CState :=
  fold_left step after (on_timeout (fold_left step before init)).

(** What the promise settles to according to the first open or error event
    before the timer; a timeout rejection otherwise. *)
Fixpoint first_settle (evs : list SockEv) : Settle :=
  match evs with
  | [] => Rejected RTimedOut
  | SOpen :: _ => Resolved
  | SError x :: _ => Rejected (RError x)
  | SClose :: rest => first_settle rest
  end.

End Connect.

Module Retry.

Local Open Scope Z_scope.

(** ** connectWithRetry (SKILL.md, "Reconnection Pattern")

    [conn k] is the outcome of the [k]-th call of [V1Client.connect]
    (counted from 0): [Some c] on success, [None] when it throws. *)

Inductive RAct :=
  | RConnect (attempt : Z)     (* await V1Client.connect(...) *)
  | RListenClosed              (* client.listen_closed().then(...) *)
  | RSleep (delay : Z).        (* await new Promise(r => setTimeout(r, delay)) *)

Inductive RResult (C : Type) := RReturn (c : C) | RThrow (msg : string).
Arguments RReturn {C} c.
Arguments RThrow {C} msg.

Section Loop.

Context {C : Type}.
Variable maxRetries : Z.
Variable conn : Z -> option C.

(** [Math.min(1000 * Math.pow(2, attempt), 30000)]; for every integer
    [attempt >= 0] the double computation is exact or saturates to
    [Infinity], and both agree with this integer formula. *)
Definition retry_delay (attempt : Z) : Z := Z.min (1000 * 2 ^ attempt) 30000.

(** The [while (attempt < maxRetries)] loop; [fuel] bounds the number of
    iterations and is never exhausted from [connectWithRetry]. *)
Fixpoint retry_loop (fuel : nat) (attempt : Z) : list RAct * RResult C :=
  match fuel with
  | O => ([], RThrow "Max retries exceeded")
  | S f =>
      if attempt <? maxRetries then
        match conn attempt with
        | Some c => ([RConnect attempt; RListenClosed], RReturn c)
        | None =>
            let attempt' := attempt + 1 in
            let delay := retry_delay attempt' in
            let '(tr, r) := retry_loop f attempt' in
            (RConnect attempt :: RSleep delay :: tr, r)
        end
      else ([], RThrow "Max retries exceeded")
  end.

Definition connectWithRetry : list RAct * RResult C :=
  retry_loop (S (Z.to_nat maxRetries)) 0.

End Loop.

(** The trace the claim describes for [n] failed attempts: connect, then
    wait [min(1000 * 2^k, 30000)] before the [k]-th retry. *)
Definition failed_attempts (n : nat) : list RAct :=
  flat_map (fun k => [RConnect (Z.of_nat k);
                      RSleep (Z.min (1000 * 2 ^ (Z.of_nat k + 1)) 30000)])
           (seq 0 n).

Definition is_connect (a : RAct) : bool :=
  match a with RConnect _ => true | _ => false end.

(** The delays slept, in order. *)
Definition sleeps (tr : list RAct) : list Z :=
  flat_map (fun a => match a with RSleep d => [d] | _ => [] end) tr.

Fixpoint nondecreasing (l : list Z) : bool :=
  match l with
  | x :: ((y :: _) as rest) => (x <=? y) && nondecreasing rest
  | _ => true
  end.

End Retry.

Module Amount.

Local Open Scope Z_scope.

(** ** validateAmount (SKILL.md, "Token amounts")

    [input : number | bigint].  A JavaScript number is an IEEE-754 double,
    [(-1)^s * m * 2^e] for a finite one. *)
Inductive Input :=
  | INumber (x : spec_float)
  | IBigInt (z : Z).

(** The two [throw new Error(...)] of the function, with the value each
    message prints. *)
Inductive AmountError :=
  | ENotWhole (x : spec_float)   (* "Amount must be a whole number ..." *)
  | EOutOfRange (amount : Z)     (* "Amount out of uint64 range ..." *)
  | ERangeError.                 (* BigInt(x) of a non-integral number *)

Inductive Result := Ok (amount : Z) | Err (e : AmountError).

(** [BigInt("18446744073709551615")]. *)
Definition UINT64_MAX : Z := 18446744073709551615.

(** [Number.isInteger(x)]: finite and without fractional part. *)
Definition isInteger (x : spec_float) : bool :=
  match x with
  | S754_zero _ => true
  | S754_finite _ m e => (0 <=? e) || (Z.pos m mod 2 ^ (- e) =? 0)
  | S754_infinity _ | S754_nan => false
  end.

(** [BigInt(input)]: exact for integral numbers; a [RangeError] otherwise. *)
Definition BigInt (input : Input) : option Z :=
  match input with
  | IBigInt z => Some z
  | INumber x =>
      if isInteger x then
        match x with
        | S754_finite s m e =>
            let v := if 0 <=? e then Z.pos m * 2 ^ e else Z.pos m / 2 ^ (- e) in
            Some (if s then - v else v)
        | _ => Some 0
        end
      else None
  end.

(** [typeof input === "number" && !Number.isInteger(input)]. *)
Definition not_whole (input : Input) : option spec_float :=
  match input with
  | INumber x => if negb (isInteger x) then Some x else None
  | IBigInt _ => None
  end.

Definition validateAmount (input : Input) : Result :=
  match not_whole input with
  | Some x => Err (ENotWhole x)
  | None =>
      match BigInt input with
      | None => Err ERangeError
      | Some amount =>
          if (amount <? 0) || (UINT64_MAX <? amount) then Err (EOutOfRange amount)
          else Ok amount
      end
  end.

(** The double [x] has the integer value [a]. *)
Definition denotes (x : spec_float) (a : Z) : Prop :=
  match x with
  | S754_zero _ => a = 0
  | S754_finite s m e =>
      (if s then - a else a) * 2 ^ Z.max 0 (- e) = Z.pos m * 2 ^ Z.max 0 e
  | S754_infinity _ | S754_nan => False
  end.

End Amount.

Module RawClient.

(** ** streamQuotesRaw (examples/stream-quotes-raw-ws.ts)

    Decoded MessagePack values, as [@msgpack/msgpack]'s [decode] returns
    them: a map with string keys becomes a plain object whose properties
    are its own data properties ([decode] refuses the key [__proto__]), a
    bin becomes a [Uint8Array].  A string holds one [ascii] per UTF-16 code
    unit; strings with larger code units, floats and extension values are
    not represented. *)
Inductive Value :=
  | VNil
  | VBool (b : bool)
  | VInt (z : Z)
  | VStr (s : string)
  | VBin (b : list Byte.byte)
  | VArr (l : list Value)
  | VMap (kv : list (string * Value)).

(** A JavaScript value as the handler sees it: [undefined] or a decoded
    value ([null] is [Val VNil]). *)
Inductive JsVal := Undefined | Val (v : Value).

Definition js_null : JsVal := Val VNil.

Definition is_null (x : JsVal) : bool :=
  match x with Val VNil => true | _ => false end.

(** [map[key] = value] in the decoder: a later duplicate key overwrites the
    value (the key keeps its first position, see [own_keys]). *)
Definition lookup (k : string) (kv : list (string * Value)) : JsVal :=
  match find (fun p => String.eqb (fst p) k) (rev kv) with
  | Some (_, v) => Val v
  | None => Undefined
  end.

(** Canonical array indices ("0", "1", ..., below 2^32 - 1). *)
Fixpoint digits_value (s : string) (acc : N) : option N :=
  match s with
  | EmptyString => Some acc
  | String c rest =>
      let d := N.of_nat (nat_of_ascii c) in
      if (48 <=? d)%N && (d <=? 57)%N then digits_value rest (acc * 10 + (d - 48))%N
      else None
  end.

Definition array_index (k : string) : option N :=
  match k with
  | EmptyString => None
  | String c rest =>
      if Ascii.eqb c "0"%char then (if String.eqb rest "" then Some 0%N else None)
      else match digits_value k 0 with
           | Some n => if (n <? 4294967295)%N then Some n else None
           | None => None
           end
  end.

(** The decimal text of an index. *)
Fixpoint uint_string (u : Decimal.uint) : string :=
  match u with
  | Decimal.Nil => ""
  | Decimal.D0 u => String "0"%char (uint_string u)
  | Decimal.D1 u => String "1"%char (uint_string u)
  | Decimal.D2 u => String "2"%char (uint_string u)
  | Decimal.D3 u => String "3"%char (uint_string u)
  | Decimal.D4 u => String "4"%char (uint_string u)
  | Decimal.D5 u => String "5"%char (uint_string u)
  | Decimal.D6 u => String "6"%char (uint_string u)
  | Decimal.D7 u => String "7"%char (uint_string u)
  | Decimal.D8 u => String "8"%char (uint_string u)
  | Decimal.D9 u => String "9"%char (uint_string u)
  end.

Definition index_key (n : nat) : string := uint_string (Nat.to_uint n).

Definition indices (n : nat) : list string := map index_key (seq 0 n).

Fixpoint first_occurrences (seen : list string) (ks : list string) : list string :=
  match ks with
  | [] => []
  | k :: rest =>
      if existsb (String.eqb k) seen then first_occurrences seen rest
      else k :: first_occurrences (k :: seen) rest
  end.

Fixpoint insert_index (k : string) (n : N) (l : list (string * N)) :
    list (string * N) :=
  match l with
  | [] => [(k, n)]
  | (k', n') :: rest =>
      if (n <? n')%N then (k, n) :: l else (k', n') :: insert_index k n rest
  end.

(** The own keys of a decoded map in property order: array indices in
    ascending order, then the other keys in the order they were first
    inserted. *)
Definition own_keys (kv : list (string * Value)) : list string :=
  let ks := first_occurrences [] (map fst kv) in
  map fst (fold_left (fun acc k => match array_index k with
                                   | Some n => insert_index k n acc
                                   | None => acc
                                   end) ks [])
  ++ filter (fun k => match array_index k with Some _ => false | None => true end) ks.

(** JavaScript truthiness. *)
Definition truthy (x : JsVal) : bool :=
  match x with
  | Undefined | Val VNil => false
  | Val (VBool b) => b
  | Val (VInt z) => negb (z =? 0)%Z
  | Val (VStr s) => negb (String.eqb s "")
  | Val (VBin _) | Val (VArr _) | Val (VMap _) => true
  end.

(** [ToPrimitive], as a template literal, [Number()] and [-] call it, throws
    for a decoded map that has its own [toString] property: that property
    is not callable, and [valueOf] (an own, non-callable property, or
    [Object.prototype.valueOf], which returns the object) gives no
    primitive either.  A map without it prints as "[object Object]"; an
    array joins its elements, throwing when one of them throws; the other
    values convert. *)
Fixpoint prim_throws (v : Value) : bool :=
  match v with
  | VArr l => existsb prim_throws l
  | VMap kv => existsb (fun p => String.eqb (fst p) "toString") kv
  | _ => false
  end.

Definition prim_throws_js (x : JsVal) : bool :=
  match x with Val v => prim_throws v | Undefined => false end.

(** Console output and other observable effects. *)
Inductive Log :=
  | LConnected
  | LResponse (requestId : JsVal)
  | LStreamStarted (id : JsVal)
  | LDataType (dataType : JsVal)
  | LInterval (ms : JsVal)
  | LServerInfo (info : JsVal)
  | LUnknownPayload (seq : JsVal)
  | LQuote (seq : JsVal) (quotesId : JsVal)
  | LNoRoutes
  | LProvider (providerId : string) (inAmount outAmount : JsVal)
  | LSlippage (bps : JsVal)
  | LExpiresIn (expiresAtMs : JsVal)
  | LTransaction (length : JsVal)
  | LComputeUnits (units : JsVal)
  | LBlank
  | LStreamEnded (id : JsVal)
  | LStreamError (code : JsVal) (message : JsVal)
  | LErrorFor (requestId : JsVal) (code : JsVal) (message : JsVal)
  | LUnknownType (keys : list string)
  | LDecodeFailure
  | LConnectionClosed
  | LWsError
  | LShuttingDown
  | LSentStop (id : JsVal)
  | LUncaught.       (* an uncaught exception printed by Node *)

(** The requests the client can send: [createStopStreamRequest(id)], with
    the id as [encode] writes it. *)
Inductive RequestData :=
  | StopStream (id : Value).

Record ClientRequest := mkReq { req_id : Z; req_data : RequestData }.

Record RState := mkR {
  activeStreamId : JsVal;       (* let activeStreamId: number | null *)
  requestId : Z;                (* module-level request id counter *)
  ws_rs : ReadyState;
  sent : list ClientRequest;    (* ws.send(encode(...)) in order *)
  close_timer : bool;           (* setTimeout(() => ws.close(), 500) armed *)
  exited : bool                 (* the process has ended *)
}.

Definition init : RState := mkR js_null 0 CONNECTING [] false false.

(** State, [TypeError] (as [None]) and console output. *)
Definition M (A : Type) := RState -> option A * RState * list Log.

Definition ret {A} (a : A) : M A := fun s => (Some a, s, []).
Definition bind {A B} (m : M A) (k : A -> M B) : M B :=
  fun s => match m s with
           | (Some a, s1, l1) => let '(r, s2, l2) := k a s1 in (r, s2, l1 ++ l2)
           | (None, s1, l1) => (None, s1, l1)
           end.
Notation "x <- m ;; k" := (bind m (fun x => k))
  (at level 61, m at next level, right associativity).
Notation "m ;;; k" := (bind m (fun _ => k)) (at level 61, right associativity).

Definition type_error {A} : M A := fun s => (None, s, []).
Definition log (l : Log) : M unit := fun s => (Some tt, s, [l]).
Definition get : M RState := fun s => (Some s, s, []).
Definition put (s' : RState) : M unit := fun _ => (Some tt, s', []).
Definition try_catch (m : M unit) (h : M unit) : M unit :=
  fun s => match m s with
           | (None, s1, l1) => let '(r, s2, l2) := h s1 in (r, s2, l1 ++ l2)
           | ok => ok
           end.

Definition set_active (x : JsVal) : M unit :=
  s <- get ;;
  put (mkR x (requestId s) (ws_rs s) (sent s) (close_timer s) (exited s)).

(** The conversion of a value to a string or a number. *)
Definition to_primitive (x : JsVal) : M unit :=
  if prim_throws_js x then type_error else ret tt.

(** [x.k] for the property names the handler reads, none of which a
    prototype provides: throws on [null] and [undefined]; strings, arrays
    and [Uint8Array]s have their [length] and their index properties. *)
Definition prop (x : JsVal) (k : string) : M JsVal :=
  match x with
  | Undefined | Val VNil => type_error
  | Val (VMap kv) => ret (lookup k kv)
  | Val (VStr s) =>
      ret (if String.eqb k "length" then Val (VInt (Z.of_nat (String.length s)))
           else match array_index k with
                | Some n => match String.get (N.to_nat n) s with
                            | Some c => Val (VStr (String c ""))
                            | None => Undefined
                            end
                | None => Undefined
                end)
  | Val (VArr l) =>
      ret (if String.eqb k "length" then Val (VInt (Z.of_nat (List.length l)))
           else match array_index k with
                | Some n => match nth_error l (N.to_nat n) with
                            | Some v => Val v
                            | None => Undefined
                            end
                | None => Undefined
                end)
  | Val (VBin b) =>
      ret (if String.eqb k "length" then Val (VInt (Z.of_nat (List.length b)))
           else match array_index k with
                | Some n => match nth_error b (N.to_nat n) with
                            | Some c => Val (VInt (Z.of_N (Byte.to_N c)))
                            | None => Undefined
                            end
                | None => Undefined
                end)
  | Val _ => ret Undefined
  end.

(** [x?.k]. *)
Definition oprop (x : JsVal) (k : string) : M JsVal :=
  match x with
  | Undefined | Val VNil => ret Undefined
  | _ => prop x k
  end.

(** [Object.keys(v)] for a decoded value other than [null] (for [null],
    [decoded.Response] throws first). *)
Definition keys (v : Value) : list string :=
  match v with
  | VMap kv => own_keys kv
  | VStr s => indices (String.length s)
  | VBin b => indices (List.length b)
  | VArr l => indices (List.length l)
  | VNil | VBool _ | VInt _ => []
  end.

(** [Object.entries(quotes)] for [quotes = swapQuotes.quotes || {}], which
    is truthy. *)
Definition entries (x : JsVal) : list (string * JsVal) :=
  match x with
  | Val (VMap kv) => map (fun k => (k, lookup k kv)) (own_keys kv)
  | Val (VStr s) =>
      combine (indices (String.length s))
              (map (fun c => Val (VStr (String c ""))) (list_ascii_of_string s))
  | Val (VArr l) => combine (indices (List.length l)) (map Val l)
  | Val (VBin b) =>
      combine (indices (List.length b)) (map (fun c => Val (VInt (Z.of_N (Byte.to_N c)))) b)
  | _ => []
  end.

(** [x || 0]. *)
Definition or_zero (x : JsVal) : JsVal := if truthy x then x else Val (VInt 0).

(** One iteration of the provider loop.  [Number(r.inAmount || 0)],
    [Number(r.outAmount || 0)], the template literals and
    [r.expiresAtMs - Date.now()] convert their operands; [toFixed] of a
    number does not throw. *)
Definition print_route (providerId : string) (r : JsVal) : M unit :=
  inAmount <- prop r "inAmount" ;;
  to_primitive (or_zero inAmount) ;;;
  outAmount <- prop r "outAmount" ;;
  to_primitive (or_zero outAmount) ;;;
  log (LProvider providerId inAmount outAmount) ;;;
  bps <- prop r "slippageBps" ;;
  to_primitive (or_zero bps) ;;;
  log (LSlippage bps) ;;;
  ex <- prop r "expiresAtMs" ;;
  (if truthy ex then to_primitive ex ;;; log (LExpiresIn ex) else ret tt) ;;;
  tx <- prop r "transaction" ;;
  (if truthy tx then
     len <- prop tx "length" ;; to_primitive len ;;; log (LTransaction len)
   else ret tt) ;;;
  cu <- prop r "computeUnits" ;;
  (if truthy cu then to_primitive cu ;;; log (LComputeUnits cu) else ret tt).

(** [for (const [providerId, route] of routeEntries) { ... }]. *)
Fixpoint log_routes (es : list (string * JsVal)) : M unit :=
  match es with
  | [] => ret tt
  | (providerId, r) :: rest => print_route providerId r ;;; log_routes rest
  end.

(** The body of [if (decoded.Response) { ... return; }]; a property read
    twice gives the same value. *)
Definition on_response (response : JsVal) : M unit :=
  rid <- prop response "requestId" ;;
  to_primitive rid ;;;
  log (LResponse rid) ;;;
  stream <- prop response "stream" ;;
  (if truthy stream then
     id <- prop stream "id" ;;
     set_active id ;;;
     to_primitive id ;;;
     log (LStreamStarted id) ;;;
     dt <- prop stream "dataType" ;;
     to_primitive dt ;;;
     log (LDataType dt)
   else ret tt) ;;;
  data <- prop response "data" ;;
  nsq <- oprop data "NewSwapQuoteStream" ;;
  (if truthy nsq then
     ms <- prop nsq "intervalMs" ;; to_primitive ms ;;; log (LInterval ms)
   else ret tt) ;;;
  gi <- oprop data "GetInfo" ;;
  (* JSON.stringify of a decoded value does not throw *)
  (if truthy gi then log (LServerInfo gi) else ret tt).

(** The body of [if (decoded.StreamData) { ... }]: [seq] is printed and
    nothing else is done with it. *)
Definition on_stream_data (streamData : JsVal) : M unit :=
  payload <- prop streamData "payload" ;;
  swapQuotes <- oprop payload "SwapQuotes" ;;
  if negb (truthy swapQuotes) then
    sq <- prop streamData "seq" ;;
    to_primitive sq ;;;
    log (LUnknownPayload sq)
  else
    sq <- prop streamData "seq" ;;
    to_primitive sq ;;;
    qid <- prop swapQuotes "id" ;;
    to_primitive qid ;;;
    log (LQuote sq qid) ;;;
    qs <- prop swapQuotes "quotes" ;;
    let quotes := if truthy qs then qs else Val (VMap []) in
    match entries quotes with
    | [] => log LNoRoutes
    | routeEntries => log_routes routeEntries ;;; log LBlank
    end.

(** The body of [if (decoded.StreamEnd) { ... }]. *)
Definition on_stream_end (streamEnd : JsVal) : M unit :=
  id <- prop streamEnd "id" ;;
  to_primitive id ;;;
  log (LStreamEnded id) ;;;
  ec <- prop streamEnd "errorCode" ;;
  (if truthy ec then
     to_primitive ec ;;;
     em <- prop streamEnd "errorMessage" ;;
     to_primitive em ;;;
     log (LStreamError ec em)
   else ret tt) ;;;
  set_active js_null.

(** The body of [if (decoded.Error) { ... }]. *)
Definition on_error (error : JsVal) : M unit :=
  rid <- prop error "requestId" ;;
  to_primitive rid ;;;
  code <- prop error "code" ;;
  to_primitive code ;;;
  msg <- prop error "message" ;;
  to_primitive msg ;;;
  log (LErrorFor rid code msg).

(** [ws.on("message", ...)]: [decoded] is [None] when [decode] throws.
    The if-chain, each branch ending in [return], inside [try/catch]. *)
Definition on_message (decoded : option Value) : M unit :=
  try_catch
    (match decoded with
     | None => type_error
     | Some d =>
       let dv := Val d in
       response <- prop dv "Response" ;;
       if truthy response then on_response response else
       streamData <- prop dv "StreamData" ;;
       if truthy streamData then on_stream_data streamData else
       streamEnd <- prop dv "StreamEnd" ;;
       if truthy streamEnd then on_stream_end streamEnd else
       error <- prop dv "Error" ;;
       if truthy error then on_error error else
       log (LUnknownType (keys d))
     end)
    (log LDecodeFailure).

(** [ws.on("open", ...)]: prints "Connected!" and throws before creating
    the stream request: [bs58.decode] of the configured key may throw,
    and [amount / 1e6] (line 132) divides a BigInt by a number, a
    TypeError. *)
Definition on_open : M unit :=
  log LConnected ;;;
  type_error.

(** [encode] writes [undefined], like [null], as nil. *)
Definition encode_js (x : JsVal) : Value :=
  match x with Undefined => VNil | Val v => v end.

(** [process.on("SIGINT", ...)]: the template literal printing the id
    runs after [ws.send]. *)
Definition on_sigint : M unit :=
  log LShuttingDown ;;;
  s <- get ;;
  (if negb (is_null (activeStreamId s)) && rs_eqb (ws_rs s) OPEN then
     let id := (requestId s + 1)%Z in
     put (mkR (activeStreamId s) id (ws_rs s)
              (sent s ++ [mkReq id (StopStream (encode_js (activeStreamId s)))])
              (close_timer s) (exited s)) ;;;
     to_primitive (activeStreamId s) ;;;
     log (LSentStop (activeStreamId s))
   else ret tt) ;;;
  s' <- get ;;
  put (mkR (activeStreamId s') (requestId s') (ws_rs s') (sent s') true (exited s')).

Inductive WEvent :=
  | WOpen
  | WMessage (decoded : option Value)
  | WClose
  | WError
  | WSigint
  | WCloseTimer.   (* the 500 ms timer armed by the SIGINT handler *)

Definition terminate (s : RState) : RState :=
  mkR (activeStreamId s) (requestId s) (ws_rs s) (sent s) (close_timer s) true.

(** A listener runs to completion; an exception it lets escape is
    uncaught: Node prints it and the process exits with code 1. *)
Definition exec (m : M unit) (s : RState) : RState * list Log :=
  match m s with
  | (Some _, s', l) => (s', l)
  | (None, s', l) => (terminate s', l ++ [LUncaught])
  end.

Definition step (s : RState) (e : WEvent) : RState * list Log :=
  if exited s then (s, []) else
  match e with
  | WOpen =>
      exec on_open (mkR (activeStreamId s) (requestId s) OPEN (sent s)
                        (close_timer s) (exited s))
  | WMessage d => exec (on_message d) s
  | WClose =>
      (* process.exit(0) *)
      (mkR (activeStreamId s) (requestId s) CLOSED (sent s) (close_timer s) true,
       [LConnectionClosed])
  | WError => (s, [LWsError])
  | WSigint => exec on_sigint s
  | WCloseTimer =>
      if close_timer s
      then (mkR (activeStreamId s) (requestId s) (ws_close (ws_rs s)) (sent s)
                false (exited s), [])
      else (s, [])
  end.

Fixpoint run (s : RState) (evs : list WEvent) : RState * list Log :=
  match evs with
  | [] => (s, [])
  | e :: rest =>
      let '(s1, l1) := step s e in
      let '(s2, l2) := run s1 rest in
      (s2, l1 ++ l2)
  end.


(** Which branch of the if-chain a decoded message takes: the four tags are
    tested in the order Response, StreamData, StreamEnd, Error. *)
Inductive Dispatch :=
  | DResponse (x : JsVal)
  | DStreamData (x : JsVal)
  | DStreamEnd (x : JsVal)
  | DError (x : JsVal)
  | DUnknown (ks : list string)
  | DThrow.

Definition classify (decoded : option Value) : Dispatch :=
  match decoded with
  | None | Some VNil => DThrow
  | Some (VMap kv) =>
      let r := lookup "Response" kv in
      if truthy r then DResponse r else
      let sd := lookup "StreamData" kv in
      if truthy sd then DStreamData sd else
      let se := lookup "StreamEnd" kv in
      if truthy se then DStreamEnd se else
      let er := lookup "Error" kv in
      if truthy er then DError er else
      DUnknown (keys (VMap kv))
  | Some v => DUnknown (keys v)
  end.

Definition handler_of (d : Dispatch) : M unit :=
  match d with
  | DResponse x => on_response x
  | DStreamData x => on_stream_data x
  | DStreamEnd x => on_stream_end x
  | DError x => on_error x
  | DUnknown ks => log (LUnknownType ks)
  | DThrow => type_error
  end.

(** The console and socket effects other than [activeStreamId]. *)
Definition same_io (s s' : RState) : Prop :=
  requestId s' = requestId s /\ sent s' = sent s /\ ws_rs s' = ws_rs s /\
  close_timer s' = close_timer s /\ exited s' = exited s.

(** The open handler throws (see [on_open]), so the process never reaches
    the other handlers; they are studied from the state they would start
    in: the socket open, no stream, nothing sent. *)
Definition opened : RState := mkR js_null 0 OPEN [] false false.

(** Message shapes used below. *)
Definition stream_data (id seq : Z) : Value :=
  VMap [("StreamData"%string,
         VMap [("id"%string, VInt id); ("seq"%string, VInt seq);
               ("payload"%string, VMap [("SwapQuotes"%string,
                                  VMap [("id"%string, VStr "q"%string); ("quotes"%string, VMap [])])])])].

Definition stream_end (id : Z) : Value :=
  VMap [("StreamEnd"%string, VMap [("id"%string, VInt id)])].

Definition response_with_stream (rid sid : Z) : Value :=
  VMap [("Response"%string,
         VMap [("requestId"%string, VInt rid);
               ("data"%string, VMap [("NewSwapQuoteStream"%string, VMap [("intervalMs"%string, VInt 1000)])]);
               ("stream"%string, VMap [("id"%string, VInt sid); ("dataType"%string, VStr "SwapQuotes"%string)])])].

(** Computations that neither read nor write the state. *)
Definition pure {A} (m : M A) : Prop :=
  exists r l, forall s, m s = (r, s, l).

(** Computations that change nothing but [activeStreamId]. *)
Definition keeps {A} (m : M A) : Prop :=
  forall s, same_io s (snd (fst (m s))).

End RawClient.

(** * Properties *)

Example validate_short : Proxy.validateUserToken (Some (js "abc")) = Proxy.mkAuth false (js "").
Proof. reflexivity. Qed.
Example validate_long :
  Proxy.validateUserToken (Some (js "abcdefghijkl")) = Proxy.mkAuth true (js "user_abcdefgh").
Proof. reflexivity. Qed.
Example connect_err :
  Connect.promise (Connect.connectToTitan [Connect.SError 1; Connect.SClose] [Connect.SOpen])
  = Connect.Rejected (Connect.RError 1).
Proof. reflexivity. Qed.


Section ProxyProps.

Import Proxy.

Lemma step_trace_ext (cid : string) (s : PState) (e : Event) :
  exists acts, trace (step cid s e) = trace s ++ acts /\
               forallb (fun a => negb (is_validate a)) acts = true.
Proof.
  destruct s as [ph crs trs cs tr]; destruct ph, e; cbn [step phase trace];
    unfold emit; cbn [trace];
    repeat match goal with
           | |- context [if ?b then _ else _] => destruct b
           | |- context [match ?o with Some _ => _ | None => _ end] => destruct o as [[]|]
           end; cbn [trace];
    first [ exists []; rewrite app_nil_r; split; reflexivity
          | eexists; split; [reflexivity | reflexivity] ].
Qed.

Lemma run_trace_ext (cid : string) (evs : list Event) : forall s,
  exists acts, trace (run cid s evs) = trace s ++ acts /\
               forallb (fun a => negb (is_validate a)) acts = true.
Proof.
  induction evs as [|e evs IH]; intros s.
  - exists []; rewrite app_nil_r; split; reflexivity.
  - change (run cid s (e :: evs)) with (run cid (step cid s e) evs).
    destruct (step_trace_ext cid s e) as [a1 [H1 F1]].
    destruct (IH (step cid s e)) as [a2 [H2 F2]].
    exists (a1 ++ a2); split.
    + rewrite H2, H1, app_assoc; reflexivity.
    + rewrite forallb_app, F1, F2; reflexivity.
Qed.

Lemma returned_idle (cid : string) (evs : list Event) : forall s,
  phase s = PReturned -> titan_rs s = None ->
  phase (run cid s evs) = PReturned /\ titan_rs (run cid s evs) = None /\
  trace (run cid s evs) = trace s.
Proof.
  induction evs as [|e evs IH]; intros s Hp Ht.
  - repeat split; assumption.
  - change (run cid s (e :: evs)) with (run cid (step cid s e) evs).
    destruct s as [ph crs trs cs tr]; cbn in Hp, Ht; subst ph trs.
    destruct e; cbn [step phase];
      match goal with
      | |- context [run cid ?s' evs] =>
          pose proof (IH s' eq_refl eq_refl) as [H1 [H2 H3]]
      end; rewrite H3; repeat split; assumption.
Qed.

(** C1: for every downstream connection the first effect of the handler is
    the one call of [validateUserToken], and no later effect calls it again;
    when the token is rejected the handler's effects are exactly that call
    and [clientWs.close(4001, "Unauthorized")], whatever events follow, and
    the upstream socket is never created. *)
Theorem authorization_before_dial (cid : string) (conns0 : list (string * jsstr))
    (tok : option jsstr) (evs : list Event) :
  let s := run cid (handleClientConnection conns0 tok) evs in
  (exists rest, trace s = AValidate tok :: rest /\
                forallb (fun a => negb (is_validate a)) rest = true)
  /\ (valid (validateUserToken tok) = false ->
      trace s = [AValidate tok; ACloseClient 4001 "Unauthorized"] /\
      titan_rs s = None).
Proof.
  cbv zeta; split.
  - destruct (run_trace_ext cid evs (handleClientConnection conns0 tok))
      as [acts [H F]].
    rewrite H; unfold handleClientConnection.
    destruct (valid (validateUserToken tok)); cbn;
      (eexists; split; [reflexivity | exact F]).
  - intros Hv.
    destruct (returned_idle cid evs (handleClientConnection conns0 tok))
      as [_ [Ht Htr]];
      unfold handleClientConnection; rewrite Hv; try reflexivity.
    unfold handleClientConnection in Ht, Htr; rewrite Hv in Ht, Htr.
    split; assumption.
Qed.

Lemma authorization_before_dial_witness :
  valid (validateUserToken (Some (js "abc"))) = false /\
  trace (run "c1"%string (handleClientConnection [] (Some (js "abc")))
             [ETitanOpen; EClientMessage [Byte.x01]]) =
    [AValidate (Some (js "abc")); ACloseClient 4001 "Unauthorized"].
Proof.
  split; [reflexivity |].
  exact (proj1 (proj2 (authorization_before_dial "c1"%string [] (Some (js "abc"))
                         [ETitanOpen; EClientMessage [Byte.x01]]) eq_refl)).
Defined.

(** C10: [validateUserToken] accepts exactly the non-null tokens of at
    least 10 code units, with user id ["user_"] followed by their first 8
    code units, and rejects every other input with an empty user id; the
    handler dials upstream exactly for those tokens. *)
Theorem validateUserToken_spec (tok : option jsstr) :
  validateUserToken tok =
    match tok with
    | Some t => if (10 <=? List.length t)%nat
                then mkAuth true (js "user_" ++ firstn 8 t)
                else mkAuth false (js "")
    | None => mkAuth false (js "")
    end
  /\ forall (cid : string) (conns0 : list (string * jsstr)),
       existsb is_dial (trace (handleClientConnection conns0 tok)) = true <->
       exists t, tok = Some t /\ (10 <= List.length t)%nat.
Proof.
  assert (Hv : validateUserToken tok =
    match tok with
    | Some t => if (10 <=? List.length t)%nat
                then mkAuth true (js "user_" ++ firstn 8 t)
                else mkAuth false (js "")
    | None => mkAuth false (js "")
    end).
  { destruct tok as [[|c t]|]; [reflexivity | | reflexivity].
    cbn [validateUserToken].
    destruct (Nat.ltb_spec (List.length (c :: t)) 10) as [Hl|Hl];
      destruct (Nat.leb_spec 10 (List.length (c :: t))) as [Hl'|Hl'];
      first [reflexivity | lia]. }
  split; [exact Hv |].
  intros cid conns0; unfold handleClientConnection; rewrite Hv.
  destruct tok as [t|].
  - destruct (Nat.leb_spec 10 (List.length t)) as [Hl|Hl]; cbn.
    + split; [intros _; exists t; split; [reflexivity | exact Hl] | reflexivity].
    + split; [discriminate | intros [t' [Ht' Hl']]; injection Ht'; intros; subst; lia].
  - cbn; split; [discriminate | intros [t' [Ht' _]]; discriminate].
Qed.

Lemma validateUserToken_spec_witness :
  (exists t, Some (js "abcdefghijkl") = Some t /\ (10 <= List.length t)%nat) /\
  existsb is_dial (trace (handleClientConnection [] (Some (js "abcdefghijkl")))) = true.
Proof.
  assert (H : exists t, Some (js "abcdefghijkl") = Some t /\ (10 <= List.length t)%nat)
    by (eexists; split; [reflexivity | cbn; lia]).
  split; [exact H |].
  exact (proj2 (proj2 (validateUserToken_spec (Some (js "abcdefghijkl"))) "c1"%string []) H).
Defined.

Lemma relay_messages (cid : string) (evs : list Event) : forall s,
  phase s = PRelaying -> client_rs s = OPEN -> titan_rs s = Some OPEN ->
  forallb is_message evs = true ->
  let s' := run cid s evs in
  phase s' = PRelaying /\ client_rs s' = OPEN /\ titan_rs s' = Some OPEN /\
  upstream_frames (trace s') = upstream_frames (trace s) ++ client_frames evs /\
  downstream_frames (trace s') = downstream_frames (trace s) ++ titan_frames evs.
Proof.
  induction evs as [|e evs IH]; intros s Hp Hc Ht Hm; cbv zeta.
  - rewrite !app_nil_r; repeat split; assumption.
  - change (run cid s (e :: evs)) with (run cid (step cid s e) evs).
    cbn [forallb] in Hm; apply andb_prop in Hm as [He Hm].
    destruct s as [ph crs trs cs tr]; cbn in Hp, Hc, Ht; subst ph crs trs.
    pose proof (IH (step cid (mkP PRelaying OPEN (Some OPEN) cs tr) e)) as IH'.
    destruct e; try discriminate He; cbn [step phase client_rs titan_rs rs_eqb] in *;
      unfold emit in *; cbn [trace] in *;
      destruct (IH' eq_refl eq_refl eq_refl Hm) as [H1 [H2 [H3 [H4 H5]]]];
      rewrite H4, H5; unfold upstream_frames, downstream_frames;
      rewrite !flat_map_app; cbn; rewrite ?app_nil_r, <- ?app_assoc;
      repeat split; assumption.
Qed.

(** C2: once the upstream socket has opened for an authorized peer, for
    every interleaving of frames from both peers, the frames written
    upstream are exactly the downstream peer's frames and the frames written
    downstream are exactly the upstream peer's frames, unchanged and in
    arrival order. *)
Theorem relay_fidelity (cid : string) (conns0 : list (string * jsstr))
    (tok : option jsstr) (evs : list Event)
    (Hauth : valid (validateUserToken tok) = true)
    (Hmsg : forallb is_message evs = true) :
  let s := run cid (handleClientConnection conns0 tok) (ETitanOpen :: evs) in
  upstream_frames (trace s) = client_frames evs /\
  downstream_frames (trace s) = titan_frames evs.
Proof.
  cbv zeta.
  change (run cid (handleClientConnection conns0 tok) (ETitanOpen :: evs))
    with (run cid (step cid (handleClientConnection conns0 tok) ETitanOpen) evs).
  unfold handleClientConnection; rewrite Hauth; cbn [negb].
  destruct (relay_messages cid evs
              (step cid (mkP (PDialing (userId (validateUserToken tok))) OPEN
                 (Some CONNECTING) conns0 [AValidate tok; ADial]) ETitanOpen)
              eq_refl eq_refl eq_refl Hmsg) as [_ [_ [_ [H4 H5]]]].
  rewrite H4, H5; split; reflexivity.
Qed.

Lemma relay_fidelity_witness :
  valid (validateUserToken (Some (js "abcdefghijkl"))) = true /\
  forallb is_message [EClientMessage [Byte.x01]; ETitanMessage [Byte.x02]] = true /\
  let s := run "c1"%string (handleClientConnection [] (Some (js "abcdefghijkl")))
               [ETitanOpen; EClientMessage [Byte.x01]; ETitanMessage [Byte.x02]] in
  upstream_frames (trace s) = [[Byte.x01]] /\ downstream_frames (trace s) = [[Byte.x02]].
Proof.
  split; [reflexivity | split; [reflexivity |]].
  exact (relay_fidelity "c1"%string [] (Some (js "abcdefghijkl"))
           [EClientMessage [Byte.x01]; ETitanMessage [Byte.x02]] eq_refl eq_refl).
Defined.

Lemma titan_messages_after_client_closed (cid : string) (ds : list RawData) :
  forall s, phase s = PRelaying -> client_rs s = CLOSED ->
  run cid s (map ETitanMessage ds) = s.
Proof.
  induction ds as [|d ds IH]; intros s Hp Hc; [reflexivity |].
  change (run cid s (map ETitanMessage (d :: ds)))
    with (run cid (step cid s (ETitanMessage d)) (map ETitanMessage ds)).
  destruct s as [ph crs trs cs tr]; cbn in Hp, Hc; subst ph crs.
  cbn [step phase client_rs rs_eqb]; apply IH; reflexivity.
Qed.

(** C7 (failing input): a downstream peer with a valid token that closes
    while [connectToTitan()] is pending.  Its 'close' event is emitted
    before the listeners are attached, so once the upstream socket opens
    the pairing is stored, the upstream socket stays OPEN and is never
    closed, and the entry stays in [connections], whatever the upstream
    sends. *)
Theorem client_close_during_dial_leaks_pairing (ds : list RawData) :
  let s := run "c1"%string (handleClientConnection [] (Some (js "abcdefghijkl")))
               (EClientClose :: ETitanOpen :: map ETitanMessage ds) in
  conns s = [("c1"%string, js "user_abcdefgh")] /\
  client_rs s = CLOSED /\ titan_rs s = Some OPEN /\
  existsb is_close_titan (trace s) = false /\
  downstream_frames (trace s) = [].
Proof.
  cbv zeta.
  change (run "c1"%string (handleClientConnection [] (Some (js "abcdefghijkl")))
              (EClientClose :: ETitanOpen :: map ETitanMessage ds))
    with (run "c1"%string (step "c1" (step "c1"
            (handleClientConnection [] (Some (js "abcdefghijkl"))) EClientClose)
            ETitanOpen) (map ETitanMessage ds)).
  rewrite titan_messages_after_client_closed by reflexivity.
  repeat split; reflexivity.
Qed.

(** Once relaying, a close or error event of either side closes the other
    side and deletes the pairing. *)
Lemma relay_close_releases (cid : string) (s : PState) (e : Event) :
  phase s = PRelaying ->
  In e [EClientClose; EClientError; ETitanClose; ETitanError] ->
  conns (step cid s e) = map_delete cid (conns s) /\
  exists a, trace (step cid s e) = trace s ++ [a; ADeleteConn] /\ closes_peer e a.
Proof.
  intros Hp Hin.
  destruct s as [ph crs trs cs tr]; cbn in Hp; subst ph.
  simpl in Hin; destruct Hin as [<-|[<-|[<-|[<-|[]]]]]; cbn;
    (split; [reflexivity | eexists; split; [reflexivity | cbn]]);
    eauto.
Qed.

End ProxyProps.

Section ConnectProps.

Import Connect.

Lemma connect_fold (evs : list SockEv) : forall s,
  (rs s = OPEN -> promise s <> Pending) ->
  let s' := fold_left step evs s in
  (rs s' = OPEN -> promise s' <> Pending) /\
  promise s' = match promise s with
               | Pending => match first_settle evs with
                            | Rejected RTimedOut => Pending
                            | v => v
                            end
               | p => p
               end /\
  terminated s' = terminated s.
Proof.
  induction evs as [|e evs IH]; intros s Hinv; cbv zeta.
  - cbn [fold_left first_settle].
    split; [exact Hinv | split; [destruct (promise s) as [| |[]]; reflexivity | reflexivity]].
  - cbn [fold_left].
    assert (Hinv' : rs (step s e) = OPEN -> promise (step s e) <> Pending).
    { destruct s as [r p t]; destruct e; cbn in *;
        [ intros _; destruct p; discriminate
        | destruct r; discriminate
        | discriminate ]. }
    destruct (IH (step s e) Hinv') as [H1 [H2 H3]]; cbv zeta in H1, H2, H3.
    split; [exact H1 | split].
    + rewrite H2; destruct s as [r p t]; destruct e, p as [| |[]]; reflexivity.
    + rewrite H3; destruct s as [r p t]; destruct e; reflexivity.
Qed.

(** C9: the promise of [connectToTitan] is settled once the 10 s timer has
    run: resolved if the first open or error event before the timer is an
    open event, rejected with the error if it is an error event, and
    rejected with the timed-out error if there is none; events after the
    timer change nothing; and if the socket is not OPEN when the timer
    fires it has been terminated. *)
Theorem connectToTitan_settles (before after : list SockEv) :
  let s := connectToTitan before after in
  promise s = first_settle before /\
  promise s <> Pending /\
  (first_settle before = Rejected RTimedOut -> terminated s = true) /\
  (rs (fold_left step before init) <> OPEN -> terminated s = true).
Proof.
  cbv zeta; unfold connectToTitan.
  destruct (connect_fold before init (fun H => ltac:(discriminate H)))
    as [Hb1 [Hb2 Hb3]]; cbv zeta in Hb1, Hb2, Hb3; cbn [promise init] in Hb2.
  set (s0 := fold_left step before init) in *.
  assert (Hfs : first_settle before <> Pending)
    by (clear; induction before as [|[] ?]; cbn; auto; discriminate).
  assert (Ht : rs (on_timeout s0) = OPEN -> promise (on_timeout s0) <> Pending).
  { unfold on_timeout; destruct (rs s0) eqn:E; cbn; try discriminate.
    intros _; apply Hb1; reflexivity. }
  assert (Hp : promise (on_timeout s0) = first_settle before /\
               (rs s0 <> OPEN -> terminated (on_timeout s0) = true)).
  { unfold on_timeout.
    destruct (rs s0) eqn:E; cbn [rs_eqb negb promise terminated];
      try (split; [| intros _; reflexivity]; rewrite Hb2;
           destruct (first_settle before) as [| |[]]; cbn; congruence).
    split; [| intros C; contradiction].
    specialize (Hb1 eq_refl); rewrite Hb2 in *.
    destruct (first_settle before) as [| |[]]; congruence. }
  destruct Hp as [Hp1 Hp2].
  destruct (connect_fold after (on_timeout s0) Ht) as [_ [Ha2 Ha3]];
    cbv zeta in Ha2, Ha3.
  assert (Hfin : promise (fold_left step after (on_timeout s0)) = first_settle before)
    by (rewrite Ha2, Hp1; destruct (first_settle before); congruence).
  rewrite Hfin, Ha3.
  split; [reflexivity |].
  split; [exact Hfs |].
  split; [| exact Hp2].
  intros Hto; apply Hp2; intros Hopen.
  specialize (Hb1 Hopen); rewrite Hb2, Hto in Hb1; congruence.
Qed.

Lemma connectToTitan_settles_witness :
  first_settle [SClose] = Rejected RTimedOut /\
  rs (fold_left step [SClose] init) <> OPEN /\
  terminated (connectToTitan [SClose] [SOpen]) = true.
Proof.
  split; [reflexivity | split; [discriminate |]].
  exact (proj1 (proj2 (proj2 (connectToTitan_settles [SClose] [SOpen]))) eq_refl).
Defined.

End ConnectProps.

Section RetryProps.

Import Retry.
Local Open Scope Z_scope.

Context {C : Type}.

Lemma retry_loop_all_fail (m : Z) (conn : Z -> option C) (n : nat) :
  forall (a : nat) (fuel : nat),
  Z.of_nat a + Z.of_nat n = m -> (n < fuel)%nat ->
  (forall k, Z.of_nat a <= k < m -> conn k = None) ->
  retry_loop m conn fuel (Z.of_nat a) =
    (flat_map (fun k => [RConnect (Z.of_nat k);
                         RSleep (Z.min (1000 * 2 ^ (Z.of_nat k + 1)) 30000)])
              (seq a n),
     RThrow "Max retries exceeded").
Proof.
  induction n as [|n IH]; intros a fuel Hm Hf Hc;
    (destruct fuel as [|fuel]; [lia |]); cbn [retry_loop].
  - replace (Z.of_nat a <? m) with false by (symmetry; apply Z.ltb_ge; lia).
    reflexivity.
  - replace (Z.of_nat a <? m) with true by (symmetry; apply Z.ltb_lt; lia).
    rewrite (Hc (Z.of_nat a)) by lia.
    replace (Z.of_nat a + 1) with (Z.of_nat (S a)) by lia.
    rewrite (IH (S a) fuel) by (first [lia | intros k Hk; apply Hc; lia]).
    cbn [seq flat_map app]; unfold retry_delay.
    replace (Z.of_nat (S a)) with (Z.of_nat a + 1) by lia.
    reflexivity.
Qed.

Lemma retry_loop_success (m : Z) (conn : Z -> option C) (p : Z) (c : C) (n : nat) :
  forall (a : nat) (fuel : nat),
  Z.of_nat a + Z.of_nat n = p -> p < m -> (n < fuel)%nat ->
  (forall k, Z.of_nat a <= k < p -> conn k = None) -> conn p = Some c ->
  retry_loop m conn fuel (Z.of_nat a) =
    (flat_map (fun k => [RConnect (Z.of_nat k);
                         RSleep (Z.min (1000 * 2 ^ (Z.of_nat k + 1)) 30000)])
              (seq a n) ++ [RConnect p; RListenClosed],
     RReturn c).
Proof.
  induction n as [|n IH]; intros a fuel Hp Hpm Hf Hc Hs;
    (destruct fuel as [|fuel]; [lia |]); cbn [retry_loop].
  - replace (Z.of_nat a <? m) with true by (symmetry; apply Z.ltb_lt; lia).
    replace (Z.of_nat a) with p by lia; rewrite Hs; reflexivity.
  - replace (Z.of_nat a <? m) with true by (symmetry; apply Z.ltb_lt; lia).
    rewrite (Hc (Z.of_nat a)) by lia.
    replace (Z.of_nat a + 1) with (Z.of_nat (S a)) by lia.
    rewrite (IH (S a) fuel) by (first [lia | intros k Hk; apply Hc; lia | exact Hs]).
    cbn [seq flat_map app]; unfold retry_delay.
    replace (Z.of_nat (S a)) with (Z.of_nat a + 1) by lia.
    reflexivity.
Qed.

(** C4: when the first [maxRetries] connects all fail, [connectWithRetry]
    connects [maxRetries] times, waits [min(1000 * 2^n, 30000)] ms after the
    n-th failure (before the n-th retry, counted from 1) and ends by
    throwing ["Max retries exceeded"] without returning a client; when the
    connect numbered [n < maxRetries] (from 0) is the first to succeed, the
    same waits precede it and the client is returned. *)
Theorem connectWithRetry_backoff (m : Z) (conn : Z -> option C) :
  ((forall k, 0 <= k < m -> conn k = None) ->
   connectWithRetry m conn =
     (failed_attempts (Z.to_nat m), RThrow "Max retries exceeded"))
  /\ (forall (n : Z) (c : C), 0 <= n < m ->
      (forall k, 0 <= k < n -> conn k = None) -> conn n = Some c ->
      connectWithRetry m conn =
        (failed_attempts (Z.to_nat n) ++ [RConnect n; RListenClosed], RReturn c)).
Proof.
  split.
  - intros Hc; unfold connectWithRetry, failed_attempts.
    destruct (Z.ltb_spec m 0) as [Hneg|Hnn].
    + replace (Z.to_nat m) with 0%nat by lia; cbn [retry_loop].
      replace (0 <? m) with false by (symmetry; apply Z.ltb_ge; lia).
      reflexivity.
    + apply (retry_loop_all_fail m conn (Z.to_nat m) 0%nat); [lia | lia |].
      intros k Hk; apply Hc; lia.
  - intros n c Hn Hc Hs; unfold connectWithRetry, failed_attempts.
    apply (retry_loop_success m conn n c (Z.to_nat n) 0%nat); try lia.
    + intros k Hk; apply Hc; lia.
    + exact Hs.
Qed.

End RetryProps.

Lemma connectWithRetry_backoff_witness :
  Retry.connectWithRetry 3 (fun _ : Z => @None unit) =
    (Retry.failed_attempts 3, Retry.RThrow "Max retries exceeded") /\
  Retry.connectWithRetry 3 (fun k : Z => if (k =? 1)%Z then Some tt else None) =
    (Retry.failed_attempts 1 ++ [Retry.RConnect 1%Z; Retry.RListenClosed], Retry.RReturn tt).
Proof.
  split.
  - apply (proj1 (@connectWithRetry_backoff unit 3 (fun _ => None))).
    intros k _; reflexivity.
  - apply (proj2 (@connectWithRetry_backoff unit 3
                    (fun k : Z => if (k =? 1)%Z then Some tt else None)) 1%Z tt).
    + lia.
    + intros k Hk; assert (k = 0)%Z as -> by lia; reflexivity.
    + reflexivity.
Defined.

Section RawClientProps.

Import RawClient.
Local Open Scope Z_scope.

Lemma bind_ret {A B} (a : A) (k : A -> M B) (s : RState) :
  bind (ret a) k s = k a s.
Proof. unfold bind, ret; destruct (k a s) as [[r s'] l]; reflexivity. Qed.

Lemma pure_ret {A} (a : A) : pure (ret a).
Proof. exists (Some a), []; reflexivity. Qed.

Lemma pure_log (l : Log) : pure (log l).
Proof. exists (Some tt), [l]; reflexivity. Qed.

Lemma pure_type_error {A} : pure (@type_error A).
Proof. exists None, []; reflexivity. Qed.

Lemma pure_prop (x : JsVal) (k : string) : pure (prop x k).
Proof. destruct x as [|[]]; cbn; eauto using pure_ret, pure_type_error. Qed.

Lemma pure_oprop (x : JsVal) (k : string) : pure (oprop x k).
Proof. destruct x as [|[]]; cbn; eauto using pure_ret, pure_prop. Qed.

Lemma pure_to_primitive (x : JsVal) : pure (to_primitive x).
Proof.
  unfold to_primitive; destruct (prim_throws_js x);
    [apply pure_type_error | apply pure_ret].
Qed.


Lemma pure_bind {A B} (m : M A) (k : A -> M B) :
  pure m -> (forall a, pure (k a)) -> pure (bind m k).
Proof.
  intros [r [l Hm]] Hk; destruct r as [a|].
  - destruct (Hk a) as [r' [l' Hk']].
    exists r', (l ++ l'); intros s; unfold bind; rewrite Hm, Hk'; reflexivity.
  - exists None, l; intros s; unfold bind; rewrite Hm; reflexivity.
Qed.

Lemma pure_try_catch (m h : M unit) : pure m -> pure h -> pure (try_catch m h).
Proof.
  intros [r [l Hm]] [r' [l' Hh]]; destruct r as [u|].
  - exists (Some u), l; intros s; unfold try_catch; rewrite Hm; reflexivity.
  - exists r', (l ++ l'); intros s; unfold try_catch; rewrite Hm, Hh; reflexivity.
Qed.

Ltac pure_step :=
  first
    [ apply pure_bind; [| intros ?]
    | apply pure_ret | apply pure_log | apply pure_type_error
    | apply pure_prop | apply pure_oprop | apply pure_to_primitive
    | match goal with
      | |- pure (if ?b then _ else _) => destruct b
      | |- pure (match ?x with _ => _ end) => destruct x
      | |- pure (let _ := _ in _) => cbv zeta
      end ].

Lemma pure_print_route (k : string) (r : JsVal) : pure (print_route k r).
Proof. unfold print_route; repeat pure_step. Qed.

Lemma pure_log_routes (es : list (string * JsVal)) : pure (log_routes es).
Proof.
  induction es as [|[k r] es IH]; cbn [log_routes]; [apply pure_ret |].
  apply pure_bind; [apply pure_print_route | intros _; exact IH].
Qed.

Ltac pure_auto := repeat first [apply pure_log_routes | pure_step].

Lemma pure_on_stream_data (x : JsVal) : pure (on_stream_data x).
Proof. unfold on_stream_data; pure_auto. Qed.

Lemma pure_on_error (x : JsVal) : pure (on_error x).
Proof. unfold on_error; pure_auto. Qed.

Lemma on_message_dispatch (decoded : option Value) (s : RState) :
  on_message decoded s =
  try_catch (handler_of (classify decoded)) (log LDecodeFailure) s.
Proof.
  destruct decoded as [v|]; [| reflexivity].
  destruct v as [| | | | | |kv]; try reflexivity.
  unfold on_message, try_catch, classify; cbv zeta; cbn [prop].
  rewrite bind_ret; cbv beta.
  destruct (truthy (lookup "Response" kv)); [reflexivity |].
  rewrite bind_ret; cbv beta.
  destruct (truthy (lookup "StreamData" kv)); [reflexivity |].
  rewrite bind_ret; cbv beta.
  destruct (truthy (lookup "StreamEnd" kv)); [reflexivity |].
  rewrite bind_ret; cbv beta.
  destruct (truthy (lookup "Error" kv)); reflexivity.
Qed.

Lemma catch_log (m : M unit) (l0 : Log) (s : RState) :
  try_catch m (log l0) s =
    (Some tt, snd (fst (m s)),
     match fst (fst (m s)) with Some _ => snd (m s) | None => snd (m s) ++ [l0] end).
Proof. unfold try_catch, log; destruct (m s) as [[[[]|] s1] l1]; reflexivity. Qed.

Lemma exec_catch (m : M unit) (l0 : Log) (s : RState) :
  exec (try_catch m (log l0)) s =
    (snd (fst (m s)),
     match fst (fst (m s)) with Some _ => snd (m s) | None => snd (m s) ++ [l0] end).
Proof. unfold exec; rewrite catch_log; reflexivity. Qed.

Lemma step_message (s : RState) (d : option Value) :
  exited s = false ->
  step s (WMessage d) =
    exec (try_catch (handler_of (classify d)) (log LDecodeFailure)) s.
Proof.
  intros Ex; unfold step; rewrite Ex; unfold exec; rewrite on_message_dispatch;
    reflexivity.
Qed.

Lemma pure_bind_ret {A B} (a : A) (k : A -> M B) :
  pure (k a) -> pure (bind (ret a) k).
Proof. intros [r [l H]]; exists r, l; intros s; rewrite bind_ret; apply H. Qed.

Lemma same_io_refl (s : RState) : same_io s s.
Proof. repeat split. Qed.

Lemma same_io_trans (s1 s2 s3 : RState) :
  same_io s1 s2 -> same_io s2 s3 -> same_io s1 s3.
Proof.
  intros [A1 [B1 [C1 [D1 E1]]]] [A2 [B2 [C2 [D2 E2]]]].
  repeat split; congruence.
Qed.

Lemma keeps_pure {A} (m : M A) : pure m -> keeps m.
Proof. intros [r [l H]] s; rewrite H; apply same_io_refl. Qed.

Lemma keeps_bind {A B} (m : M A) (k : A -> M B) :
  keeps m -> (forall a, keeps (k a)) -> keeps (bind m k).
Proof.
  intros Hm Hk s; unfold bind.
  specialize (Hm s); destruct (m s) as [[[a|] s1] l1]; cbn in Hm |- *.
  - specialize (Hk a s1); destruct (k a s1) as [[r s2] l2]; cbn in *.
    eapply same_io_trans; eassumption.
  - exact Hm.
Qed.

Lemma keeps_try_catch (m h : M unit) : keeps m -> keeps h -> keeps (try_catch m h).
Proof.
  intros Hm Hh s; unfold try_catch.
  specialize (Hm s); destruct (m s) as [[[u|] s1] l1]; cbn in Hm |- *.
  - exact Hm.
  - specialize (Hh s1); destruct (h s1) as [[r s2] l2]; cbn in *.
    eapply same_io_trans; eassumption.
Qed.

Lemma keeps_set_active (x : JsVal) : keeps (set_active x).
Proof. intros s; repeat split. Qed.

Ltac keeps_auto :=
  repeat first
    [ apply keeps_set_active
    | apply keeps_bind; [| intros ?]
    | apply keeps_pure; solve [pure_auto]
    | match goal with
      | |- keeps (if ?b then _ else _) => destruct b
      end ].

Lemma keeps_handler (d : Dispatch) : keeps (handler_of d).
Proof.
  destruct d; cbn [handler_of].
  - unfold on_response; keeps_auto.
  - apply keeps_pure, pure_on_stream_data.
  - unfold on_stream_end; keeps_auto.
  - apply keeps_pure, pure_on_error.
  - apply keeps_pure, pure_log.
  - apply keeps_pure, pure_type_error.
Qed.

Lemma classify_stream_end (d : option Value) (x : JsVal) :
  classify d = DStreamEnd x -> truthy x = true.
Proof.
  intros H; destruct d as [[| | | | | |kv]|];
    unfold classify in H; cbv zeta in H; try discriminate H.
  repeat match type of H with
         | context [if ?b then _ else _] =>
             let E := fresh "E" in destruct b eqn:E; try discriminate H
         end.
  injection H as <-; assumption.
Qed.

(** The state after the StreamEnd branch: [activeStreamId = null] is the
    last statement, skipped when printing the id, the error code or the
    error message throws. *)
Definition stream_end_active (x : JsVal) (a : JsVal) : JsVal :=
  match x with
  | Val (VMap ekv) =>
      let ec := lookup "errorCode" ekv in
      if prim_throws_js (lookup "id" ekv) ||
         (truthy ec && (prim_throws_js ec || prim_throws_js (lookup "errorMessage" ekv)))
      then a else js_null
  | _ => js_null
  end.

Lemma on_stream_end_state (x : JsVal) (s : RState) :
  truthy x = true ->
  snd (fst (on_stream_end x s)) =
    mkR (stream_end_active x (activeStreamId s)) (requestId s) (ws_rs s) (sent s)
        (close_timer s) (exited s).
Proof.
  intros Hx; destruct x as [|[| | | | | |ekv]]; try discriminate Hx;
    try reflexivity.
  unfold on_stream_end, stream_end_active; cbn [prop].
  remember (lookup "id" ekv) as i eqn:Ei.
  remember (lookup "errorCode" ekv) as ec eqn:Eec.
  remember (lookup "errorMessage" ekv) as em eqn:Eem.
  destruct s as [a r w st ct ex]; cbn [activeStreamId requestId ws_rs sent close_timer exited].
  cbv beta iota zeta delta [bind ret log type_error set_active get put to_primitive].
  destruct (prim_throws_js i); cbv beta iota zeta; [reflexivity |]; cbn [orb].
  destruct (truthy ec); cbv beta iota zeta; [| reflexivity]; cbn [andb].
  destruct (prim_throws_js ec); cbv beta iota zeta; [reflexivity |]; cbn [orb].
  destruct (prim_throws_js em); reflexivity.
Qed.

Ltac simpl_truthy :=
  match goal with
  | |- context [truthy ?X] =>
      let t := eval cbn in (truthy X) in progress change (truthy X) with t
  end.

Lemma on_response_without_stream (r : JsVal) :
  (forall rkv, r = Val (VMap rkv) -> truthy (lookup "stream" rkv) = false) ->
  pure (on_response r).
Proof.
  intros Hr; unfold on_response.
  destruct r as [|[| | | | | |rkv]]; cbn [prop]; try (apply pure_type_error).
  6: apply pure_bind_ret; cbv beta;
     apply pure_bind; [apply pure_to_primitive | intros _];
     apply pure_bind; [apply pure_log | intros _];
     apply pure_bind_ret; cbv beta;
     rewrite (Hr rkv eq_refl);
     apply pure_bind; [apply pure_ret | intros _];
     pure_auto.
  all: repeat first
         [ apply pure_bind_ret; cbv beta
         | simpl_truthy; cbv beta iota
         | apply pure_bind; [solve [pure_auto] | intros ?] ].
  all: pure_auto.
Qed.

Lemma message_pure_handler (s : RState) (d : option Value) :
  exited s = false -> pure (handler_of (classify d)) ->
  fst (step s (WMessage d)) = s.
Proof.
  intros Ex [r [l H]]; rewrite step_message by exact Ex; rewrite exec_catch, H;
    reflexivity.
Qed.

Lemma stream_end_state (s : RState) (kv : list (string * Value)) (x : JsVal) :
  classify (Some (VMap kv)) = DStreamEnd x -> exited s = false ->
  activeStreamId (fst (step s (WMessage (Some (VMap kv))))) =
    stream_end_active x (activeStreamId s).
Proof.
  intros Hc Ex; rewrite step_message, Hc by exact Ex; cbn [handler_of].
  rewrite exec_catch; cbn [fst].
  rewrite (on_stream_end_state x s (classify_stream_end _ _ Hc)); reflexivity.
Qed.

Lemma run_cons_fst (s : RState) (e : WEvent) (evs : list WEvent) :
  fst (run s (e :: evs)) = fst (run (fst (step s e)) evs).
Proof.
  cbn [run]; destruct (step s e) as [s1 l1]; cbn [fst].
  destruct (run s1 evs) as [s2 l2]; reflexivity.
Qed.

Lemma run_exited (s : RState) (evs : list WEvent) :
  exited s = true -> fst (run s evs) = s.
Proof.
  intros Ex; induction evs as [|e evs IH]; [reflexivity |].
  rewrite run_cons_fst; unfold step at 1; rewrite Ex; exact IH.
Qed.

Lemma message_same_io (s : RState) (d : option Value) :
  same_io s (fst (step s (WMessage d))).
Proof.
  destruct (exited s) eqn:Ex.
  - unfold step; rewrite Ex; apply same_io_refl.
  - rewrite step_message by exact Ex; rewrite exec_catch; cbn [fst].
    apply keeps_handler.
Qed.

Lemma sigint_state (s : RState) :
  exited s = false ->
  let c := negb (is_null (activeStreamId s)) && rs_eqb (ws_rs s) OPEN in
  let t := c && prim_throws_js (activeStreamId s) in
  fst (step s WSigint) =
    mkR (activeStreamId s) (if c then requestId s + 1 else requestId s) (ws_rs s)
        (if c then sent s ++ [mkReq (requestId s + 1) (StopStream (encode_js (activeStreamId s)))]
         else sent s)
        (if t then close_timer s else true) t.
Proof.
  intros Ex; cbv zeta; unfold step; rewrite Ex; unfold exec, on_sigint.
  destruct s as [a r w st ct ex]; cbn in Ex; subst ex.
  cbv beta iota zeta delta [bind ret log type_error get put to_primitive].
  cbn [activeStreamId requestId ws_rs sent close_timer exited].
  destruct (negb (is_null a) && rs_eqb w OPEN); cbv beta iota zeta; cbn [andb];
    [| reflexivity].
  destruct (prim_throws_js a); reflexivity.
Qed.

Lemma rs_close_not_open (r : ReadyState) : ws_close r <> OPEN.
Proof. destruct r; cbn; intros H; discriminate H. Qed.

Lemma quiet_step (s : RState) (e : WEvent) :
  sent s = [] -> requestId s = 0 -> (exited s = true \/ ws_rs s <> OPEN) ->
  let s' := fst (step s e) in
  sent s' = [] /\ requestId s' = 0 /\ (exited s' = true \/ ws_rs s' <> OPEN).
Proof.
  intros H1 H2 H3; cbv zeta.
  destruct (exited s) eqn:Ex.
  { unfold step; rewrite Ex; cbn [fst]; rewrite Ex; tauto. }
  destruct H3 as [H3 | H3]; [discriminate H3 |].
  destruct e as [|d| | | |].
  - unfold step; rewrite Ex; cbn.
    split; [exact H1 | split; [exact H2 | left; reflexivity]].
  - destruct (message_same_io s d) as [Q1 [Q2 [Q3 _]]].
    rewrite Q1, Q2, Q3; tauto.
  - unfold step; rewrite Ex; cbn.
    split; [exact H1 | split; [exact H2 | left; reflexivity]].
  - unfold step; rewrite Ex; cbn [fst]; tauto.
  - assert (Hr : rs_eqb (ws_rs s) OPEN = false)
      by (destruct (ws_rs s); [reflexivity | congruence | reflexivity | reflexivity]).
    rewrite (sigint_state s Ex); cbv zeta; cbn [sent requestId ws_rs exited].
    rewrite Hr, andb_false_r; cbn [andb]; tauto.
  - unfold step; rewrite Ex; destruct (close_timer s); cbn.
    + split; [exact H1 | split; [exact H2 | right; apply rs_close_not_open]].
    + tauto.
Qed.

Lemma quiet_invariant (evs : list WEvent) : forall s,
  sent s = [] -> requestId s = 0 -> (exited s = true \/ ws_rs s <> OPEN) ->
  let s' := fst (run s evs) in
  sent s' = [] /\ requestId s' = 0 /\ (exited s' = true \/ ws_rs s' <> OPEN).
Proof.
  induction evs as [|e evs IH]; intros s H1 H2 H3; cbv zeta; [tauto |].
  rewrite run_cons_fst.
  destruct (quiet_step s e H1 H2 H3) as [K1 [K2 K3]].
  exact (IH _ K1 K2 K3).
Qed.

Lemma open_terminates (evs : list WEvent) : forall s,
  In WOpen evs -> exited (fst (run s evs)) = true.
Proof.
  induction evs as [|e evs IH]; intros s Hin; [destruct Hin |].
  rewrite run_cons_fst; destruct Hin as [-> | Hin]; [| apply IH; exact Hin].
  assert (H : exited (fst (step s WOpen)) = true)
    by (unfold step; destruct (exited s) eqn:Ex; [exact Ex | reflexivity]).
  rewrite run_exited by exact H; exact H.
Qed.

Lemma try_catch_state (m h : M unit) (s : RState) :
  pure h -> snd (fst (try_catch m h s)) = snd (fst (m s)).
Proof.
  intros [r [l Hh]]; unfold try_catch.
  destruct (m s) as [[[u|] s1] l1]; [reflexivity |].
  rewrite Hh; reflexivity.
Qed.




(** C3 (counterexample): stream 5 is active; StreamData with seq 0, 1, 2
    and then 4 (3 skipped) is only printed: no error is reported, the state
    (active stream id included) is unchanged. *)
Lemma seq_gap_not_detected :
  let s1 := fst (run opened [WMessage (Some (response_with_stream 1 5))]) in
  activeStreamId s1 = Val (VInt 5) /\
  run s1 (map (fun n => WMessage (Some (stream_data 5 n))) [0; 1; 2; 4]) =
    (s1, [LQuote (Val (VInt 0)) (Val (VStr "q"%string)); LNoRoutes;
          LQuote (Val (VInt 1)) (Val (VStr "q"%string)); LNoRoutes;
          LQuote (Val (VInt 2)) (Val (VStr "q"%string)); LNoRoutes;
          LQuote (Val (VInt 4)) (Val (VStr "q"%string)); LNoRoutes]).
Proof. split; reflexivity. Qed.

(** C3 (as the code behaves): a message handled by the StreamData branch
    leaves the whole client state unchanged and prints exactly what it
    prints in the initial state: its handling does not depend on any
    earlier [seq], so no gap is ever detected. *)
Theorem stream_data_ignores_history (s : RState) (kv : list (string * Value))
    (x : JsVal) (Hd : classify (Some (VMap kv)) = DStreamData x)
    (He : exited s = false) :
  step s (WMessage (Some (VMap kv))) =
    (s, snd (step init (WMessage (Some (VMap kv))))).
Proof.
  rewrite (step_message s _ He), (step_message init _ eq_refl), !exec_catch, Hd;
    cbn [handler_of].
  destruct (pure_on_stream_data x) as [r [l H]].
  rewrite !H; reflexivity.
Qed.

Lemma stream_data_ignores_history_witness :
  let s1 := fst (run opened [WMessage (Some (response_with_stream 1 5))]) in
  exists x, classify (Some (stream_data 5 4)) = DStreamData x /\
  exited s1 = false /\
  step s1 (WMessage (Some (stream_data 5 4))) =
    (s1, snd (step init (WMessage (Some (stream_data 5 4))))).
Proof.
  cbv zeta; eexists; split; [reflexivity | split; [reflexivity |]].
  unfold stream_data; eapply stream_data_ignores_history; reflexivity.
Defined.

(** C5 (counterexample): a message carrying both a Response and an Error
    tag is handled as a Response only, exactly like the same message
    without the Error tag; no protocol error is reported. *)
Lemma two_tags_no_protocol_error :
  let resp := VMap [("requestId"%string, VInt 1);
                    ("stream"%string, VMap [("id"%string, VInt 5); ("dataType"%string, VStr "SwapQuotes"%string)])] in
  let err := VMap [("requestId"%string, VInt 2); ("code"%string, VInt 7); ("message"%string, VStr "bad"%string)] in
  step opened (WMessage (Some (VMap [("Response"%string, resp); ("Error"%string, err)]))) =
    step opened (WMessage (Some (VMap [("Response"%string, resp)]))) /\
  snd (step opened (WMessage (Some (VMap [("Response"%string, resp); ("Error"%string, err)])))) =
    [LResponse (Val (VInt 1)); LStreamStarted (Val (VInt 5));
     LDataType (Val (VStr "SwapQuotes"%string))].
Proof. split; reflexivity. Qed.

(** A handler's assignments are not undone when it throws: a Response
    whose [stream.id] has a [toString] field sets [activeStreamId] (line
    158), then printing the id throws and the failure is printed. *)
Example response_throws_after_assignment :
  let bad := VMap [("toString"%string, VInt 0)] in
  step opened (WMessage (Some (VMap [("Response"%string,
     VMap [("requestId"%string, VInt 1); ("stream"%string, VMap [("id"%string, bad)])])]))) =
    (mkR (Val bad) 0 OPEN [] false false, [LResponse (Val (VInt 1)); LDecodeFailure]).
Proof. reflexivity. Qed.

(** C5 (as the code behaves): every decoded message runs exactly the
    handler of the first truthy tag among Response, StreamData, StreamEnd,
    Error, inside the try/catch: the state is the one the handler leaves,
    even when it throws part-way, and a TypeError is printed as a failure
    after what the handler printed.  A message with none of the tags is
    printed as an unknown message type, and a value that cannot be
    inspected as a decode failure, both leaving the state unchanged.  No
    message changes the request counter, the sent requests, the socket or
    the process state, so the connection keeps running. *)
Theorem message_dispatch_first_match (decoded : option Value) (s : RState) :
  exec (on_message decoded) s =
    (snd (fst (handler_of (classify decoded) s)),
     match fst (fst (handler_of (classify decoded) s)) with
     | Some _ => snd (handler_of (classify decoded) s)
     | None => snd (handler_of (classify decoded) s) ++ [LDecodeFailure]
     end) /\
  match classify decoded with
  | DUnknown ks => exec (on_message decoded) s = (s, [LUnknownType ks])
  | DThrow => exec (on_message decoded) s = (s, [LDecodeFailure])
  | _ => True
  end /\
  same_io s (fst (exec (on_message decoded) s)).
Proof.
  assert (Hd : exec (on_message decoded) s =
               exec (try_catch (handler_of (classify decoded)) (log LDecodeFailure)) s)
    by (unfold exec; rewrite on_message_dispatch; reflexivity).
  rewrite Hd, exec_catch.
  split; [reflexivity | split].
  - destruct (classify decoded); try exact I; reflexivity.
  - apply keeps_handler.
Qed.

(** C6 (counterexample): while stream 5 is active, a StreamEnd for stream 7
    clears the active stream id. *)
Lemma stream_end_other_id_clears_active :
  let s1 := fst (run opened [WMessage (Some (response_with_stream 1 5))]) in
  activeStreamId s1 = Val (VInt 5) /\
  activeStreamId (fst (step s1 (WMessage (Some (stream_end 7))))) = js_null.
Proof. split; reflexivity. Qed.

(** C6 (as the code behaves): the SIGINT handler, which sends StopStream,
    never changes [activeStreamId]; an event changes it only if it is a
    message handled as a Response whose [stream] field is truthy, or as a
    StreamEnd; a StreamEnd sets it to [null], whatever its id, unless
    printing its id, error code or error message throws first, and then
    leaves it unchanged.  The client keeps a single active stream id. *)
Theorem active_stream_id_updates (s : RState) (e : WEvent) :
  activeStreamId (fst (step s WSigint)) = activeStreamId s /\
  (activeStreamId (fst (step s e)) = activeStreamId s \/
   exists kv, e = WMessage (Some (VMap kv)) /\ exited s = false /\
     match classify (Some (VMap kv)) with
     | DResponse r =>
         exists rkv, r = Val (VMap rkv) /\ truthy (lookup "stream" rkv) = true
     | DStreamEnd _ => activeStreamId (fst (step s e)) = js_null
     | _ => False
     end) /\
  (forall kv x, classify (Some (VMap kv)) = DStreamEnd x -> exited s = false ->
     activeStreamId (fst (step s (WMessage (Some (VMap kv))))) =
       stream_end_active x (activeStreamId s)).
Proof.
  assert (Hsig : activeStreamId (fst (step s WSigint)) = activeStreamId s).
  { destruct (exited s) eqn:Ex; [unfold step; rewrite Ex; reflexivity |].
    rewrite (sigint_state s Ex); reflexivity. }
  split; [exact Hsig | split; [| exact (fun kv x Hc Ex => stream_end_state s kv x Hc Ex)]].
  destruct (exited s) eqn:Ex.
  { left; unfold step; rewrite Ex; reflexivity. }
  destruct e as [|d| | | |]; try (left; exact Hsig);
    try (left; unfold step; rewrite Ex; cbn;
         try (destruct (close_timer s)); reflexivity).
  destruct d as [[| | | | | |kv]|];
    try (left; rewrite message_pure_handler;
         [reflexivity | exact Ex | cbn; first [apply pure_log | apply pure_type_error]]).
  destruct (classify (Some (VMap kv))) as [r|x|x|x|ks|] eqn:Hc.
  - destruct r as [|[| | | | | |rkv]];
      try (left; rewrite message_pure_handler; [reflexivity | exact Ex |];
           rewrite Hc; apply on_response_without_stream; intros rkv' Hr; discriminate Hr).
    destruct (truthy (lookup "stream" rkv)) eqn:Hs.
    + right; exists kv; split; [reflexivity | split; [reflexivity |]].
      rewrite Hc; exists rkv; split; [reflexivity | exact Hs].
    + left; rewrite message_pure_handler; [reflexivity | exact Ex |].
      rewrite Hc; apply on_response_without_stream; intros rkv' Hr;
        injection Hr as <-; exact Hs.
  - left; rewrite message_pure_handler; [reflexivity | exact Ex |].
    rewrite Hc; apply pure_on_stream_data.
  - pose proof (stream_end_state s kv x Hc Ex) as H.
    unfold stream_end_active in H.
    destruct x as [|[| | | | | |ekv]];
      try (right; exists kv; split; [reflexivity | split; [reflexivity | rewrite Hc; exact H]]).
    cbv zeta in H.
    match type of H with
    | context [if ?b then _ else _] => destruct b
    end.
    + left; exact H.
    + right; exists kv; split; [reflexivity | split; [reflexivity | rewrite Hc; exact H]].
  - left; rewrite message_pure_handler; [reflexivity | exact Ex |].
    rewrite Hc; apply pure_on_error.
  - left; rewrite message_pure_handler; [reflexivity | exact Ex |].
    rewrite Hc; apply pure_log.
  - left; rewrite message_pure_handler; [reflexivity | exact Ex |].
    rewrite Hc; apply pure_type_error.
Qed.

Lemma active_stream_id_updates_witness :
  let s1 := fst (run opened [WMessage (Some (response_with_stream 1 5))]) in
  let bad := VMap [("toString"%string, VInt 0)] in
  classify (Some (stream_end 7)) = DStreamEnd (Val (VMap [("id"%string, VInt 7)])) /\
  exited s1 = false /\
  activeStreamId (fst (step s1 (WMessage (Some (stream_end 7))))) = js_null /\
  activeStreamId (fst (step s1 (WMessage (Some (VMap [("StreamEnd"%string,
                                                     VMap [("id"%string, bad)])]))))) =
    Val (VInt 5).
Proof.
  cbv zeta; split; [reflexivity | split; [reflexivity | split]].
  - exact (proj2 (proj2 (active_stream_id_updates
             (fst (run opened [WMessage (Some (response_with_stream 1 5))])) WSigint))
             [("StreamEnd"%string, VMap [("id"%string, VInt 7)])]
             (Val (VMap [("id"%string, VInt 7)])) eq_refl eq_refl).
  - exact (proj2 (proj2 (active_stream_id_updates
             (fst (run opened [WMessage (Some (response_with_stream 1 5))])) WSigint))
             [("StreamEnd"%string, VMap [("id"%string, VMap [("toString"%string, VInt 0)])])]
             (Val (VMap [("id"%string, VMap [("toString"%string, VInt 0)])])) eq_refl eq_refl).
Defined.

(** From its initial state the raw client never sends a request and never
    increments its request counter, whatever events occur: the open
    handler throws before the stream request is sent, which ends the
    process, and until the socket opens the SIGINT handler sends nothing. *)
Lemma raw_client_never_sends (evs : list WEvent) :
  let s := fst (run init evs) in
  sent s = [] /\ requestId s = 0 /\ (In WOpen evs -> exited s = true).
Proof.
  cbv zeta.
  assert (H0 : ws_rs init <> OPEN) by (intros H; discriminate H).
  destruct (quiet_invariant evs init eq_refl eq_refl (or_intror H0)) as [H1 [H2 _]].
  split; [exact H1 | split; [exact H2 |]].
  apply open_terminates.
Qed.

Lemma raw_client_never_sends_witness :
  let evs := [WOpen; WMessage (Some (response_with_stream 1 5)); WSigint] in
  In WOpen evs /\ sent (fst (run init evs)) = [] /\ exited (fst (run init evs)) = true.
Proof.
  cbv zeta; split; [left; reflexivity |].
  pose proof (raw_client_never_sends [WOpen; WMessage (Some (response_with_stream 1 5)); WSigint])
    as [H1 [_ H3]].
  split; [exact H1 | apply H3; left; reflexivity].
Defined.





(** The provider loop stops at the first route whose printing throws (a
    [null] or [undefined] route, or a field whose conversion throws): the
    routes after it are not printed, and the whole handler ends there. *)
Lemma provider_loop_stops_at_failing_route (pre post : list (string * JsVal))
    (k : string) (r : JsVal) (s : RState) :
  fst (fst (print_route k r s)) = None ->
  log_routes (pre ++ (k, r) :: post) s = log_routes (pre ++ [(k, r)]) s.
Proof.
  intros Hf.
  destruct (pure_print_route k r) as [r0 [l0 Hp]].
  rewrite Hp in Hf; cbn in Hf; subst r0.
  revert s; induction pre as [|[k' r'] pre IH]; intros s.
  - cbn [app log_routes]; unfold bind; rewrite Hp; reflexivity.
  - cbn [app log_routes]; unfold bind.
    destruct (print_route k' r' s) as [[[u|] s1] l1]; [| reflexivity].
    rewrite IH; reflexivity.
Qed.

Lemma provider_loop_stops_at_failing_route_witness :
  let bad := Val (VMap [("inAmount"%string, VMap [("toString"%string, VInt 0)])]) in
  fst (fst (print_route "b"%string bad init)) = None /\
  log_routes [("a"%string, Val (VMap [])); ("b"%string, bad); ("c"%string, Val (VMap []))] init =
    (None, init, [LProvider "a"%string Undefined Undefined; LSlippage Undefined]).
Proof.
  cbv zeta; split; [reflexivity |].
  exact (eq_trans
           (provider_loop_stops_at_failing_route [("a"%string, Val (VMap []))]
              [("c"%string, Val (VMap []))] "b"%string
              (Val (VMap [("inAmount"%string, VMap [("toString"%string, VInt 0)])])) init
              eq_refl)
           eq_refl).
Defined.

End RawClientProps.

Section AmountProps.

Import Amount.
Local Open Scope Z_scope.

Lemma denotes_unique (x : spec_float) (a b : Z) :
  denotes x a -> denotes x b -> a = b.
Proof.
  destruct x as [s|s| |s m e]; cbn -[Z.mul Z.pow]; try tauto.
  - intros -> ->; reflexivity.
  - intros Ha Hb.
    assert (Hp : 0 < 2 ^ Z.max 0 (- e)) by (apply Z.pow_pos_nonneg; lia).
    rewrite <- Hb in Ha.
    destruct s; apply Z.mul_cancel_r in Ha; lia.
Qed.

Lemma bigint_denotes (x : spec_float) :
  isInteger x = true -> exists a, BigInt (INumber x) = Some a /\ denotes x a.
Proof.
  unfold BigInt; intros Hi; rewrite Hi.
  destruct x as [s|s| |s m e]; cbn -[Z.mul Z.pow Z.div Z.modulo] in Hi |- *;
    try discriminate.
  - exists 0; split; reflexivity.
  - eexists; split; [reflexivity |].
    destruct (0 <=? e) eqn:He.
    + apply Z.leb_le in He.
      rewrite (Z.max_r 0 e), (Z.max_l 0 (- e)) by lia.
      destruct s; rewrite ?Z.opp_involutive; ring.
    + apply Z.leb_gt in He; cbn in Hi; apply Z.eqb_eq in Hi.
      rewrite (Z.max_l 0 e), (Z.max_r 0 (- e)) by lia.
      assert (Hp : 2 ^ (- e) <> 0) by (apply Z.pow_nonzero; lia).
      change (2 ^ 0) with 1; rewrite Z.mul_1_r.
      destruct s; rewrite ?Z.opp_involutive; rewrite Z.mul_comm;
        symmetry; apply Z.div_exact; assumption.
Qed.

Lemma denotes_integer (x : spec_float) (a : Z) : denotes x a -> isInteger x = true.
Proof.
  destruct x as [s|s| |s m e]; cbn -[Z.mul Z.pow Z.div Z.modulo]; try tauto.
  intros H; destruct (0 <=? e) eqn:He; [reflexivity |]; cbn.
  apply Z.leb_gt in He.
  rewrite (Z.max_l 0 e), (Z.max_r 0 (- e)) in H by lia.
  change (2 ^ 0) with 1 in H; rewrite Z.mul_1_r in H; rewrite <- H.
  apply Z.eqb_eq, Z.mod_mul, Z.pow_nonzero; lia.
Qed.

(** What an input stands for: the double's integer value, or the bigint. *)
Lemma validateAmount_ok (i : Input) (a : Z) :
  validateAmount i = Ok a <->
  match i with INumber x => denotes x a | IBigInt z => z = a end /\
  0 <= a <= 2 ^ 64 - 1.
Proof.
  assert (Hmax : UINT64_MAX = 2 ^ 64 - 1) by reflexivity.
  destruct i as [x|z]; unfold validateAmount, not_whole.
  - destruct (isInteger x) eqn:Hi; cbn [negb].
    + destruct (bigint_denotes x Hi) as [b [Hb Hd]]; rewrite Hb.
      destruct ((b <? 0) || (UINT64_MAX <? b)) eqn:Hr; rewrite Hmax in Hr.
      * split; [discriminate |].
        intros [Ha Hr']; rewrite (denotes_unique x a b Ha Hd) in Hr'.
        apply orb_true_iff in Hr as [Hr | Hr]; apply Z.ltb_lt in Hr; lia.
      * apply orb_false_iff in Hr as [Hr1 Hr2];
          apply Z.ltb_ge in Hr1; apply Z.ltb_ge in Hr2.
        split.
        -- intros H; injection H as <-; split; [exact Hd | lia].
        -- intros [Ha _]; rewrite (denotes_unique x a b Ha Hd); reflexivity.
    + split; [discriminate |].
      intros [Ha _]; rewrite (denotes_integer x a Ha) in Hi; discriminate.
  - cbn [BigInt].
    destruct ((z <? 0) || (UINT64_MAX <? z)) eqn:Hr; rewrite Hmax in Hr.
    + split; [discriminate |].
      intros [-> Hr']; apply orb_true_iff in Hr as [Hr | Hr]; apply Z.ltb_lt in Hr; lia.
    + apply orb_false_iff in Hr as [Hr1 Hr2];
        apply Z.ltb_ge in Hr1; apply Z.ltb_ge in Hr2.
      split.
      * intros H; injection H as <-; split; [reflexivity | lia].
      * intros [-> _]; reflexivity.
Qed.

(** How an input is rejected: a number without an integer value with the
    whole-number error, an integer outside [0, 2^64 - 1] with the range
    error carrying that integer; [BigInt] itself never throws. *)
Lemma validateAmount_rejects (i : Input) :
  (forall x, validateAmount i = Err (ENotWhole x) <->
             i = INumber x /\ ~ exists a, denotes x a) /\
  (forall a, validateAmount i = Err (EOutOfRange a) <->
             match i with INumber x => denotes x a | IBigInt z => z = a end /\
             (a < 0 \/ 2 ^ 64 - 1 < a)) /\
  validateAmount i <> Err ERangeError.
Proof.
  assert (Hmax : UINT64_MAX = 2 ^ 64 - 1) by reflexivity.
  destruct i as [x|z]; unfold validateAmount, not_whole.
  - destruct (isInteger x) eqn:Hi; cbn [negb].
    + destruct (bigint_denotes x Hi) as [b [Hb Hd]]; rewrite Hb.
      destruct ((b <? 0) || (UINT64_MAX <? b)) eqn:Hr; rewrite Hmax in Hr.
      * apply orb_true_iff in Hr.
        split; [| split; [| discriminate]].
        -- intros y; split; [discriminate |].
           intros [Hy Hn]; injection Hy as <-; exfalso; exact (Hn (ex_intro _ b Hd)).
        -- intros a; split.
           ++ intros H; injection H as <-; split; [exact Hd |].
              destruct Hr as [Hr | Hr]; apply Z.ltb_lt in Hr; lia.
           ++ intros [Ha _]; rewrite (denotes_unique x a b Ha Hd); reflexivity.
      * apply orb_false_iff in Hr as [Hr1 Hr2];
          apply Z.ltb_ge in Hr1; apply Z.ltb_ge in Hr2.
        split; [| split; [| discriminate]].
        -- intros y; split; [discriminate |].
           intros [Hy Hn]; injection Hy as <-; exfalso; exact (Hn (ex_intro _ b Hd)).
        -- intros a; split; [discriminate |].
           intros [Ha Hr]; rewrite (denotes_unique x a b Ha Hd) in Hr; lia.
    + split; [| split; [| discriminate]].
      * intros y; split.
        -- intros H; injection H as <-; split; [reflexivity |].
           intros [a Ha]; rewrite (denotes_integer x a Ha) in Hi; discriminate.
        -- intros [H _]; injection H as <-; reflexivity.
      * intros a; split; [discriminate |].
        intros [Ha _]; rewrite (denotes_integer x a Ha) in Hi; discriminate.
  - cbn [BigInt].
    destruct ((z <? 0) || (UINT64_MAX <? z)) eqn:Hr; rewrite Hmax in Hr.
    + apply orb_true_iff in Hr.
      split; [| split; [| discriminate]].
      * intros y; split; [discriminate | intros [H _]; discriminate H].
      * intros a; split.
        -- intros H; injection H as <-; split; [reflexivity |].
           destruct Hr as [Hr | Hr]; apply Z.ltb_lt in Hr; lia.
        -- intros [<- _]; reflexivity.
    + apply orb_false_iff in Hr as [Hr1 Hr2];
        apply Z.ltb_ge in Hr1; apply Z.ltb_ge in Hr2.
      split; [| split; [| discriminate]].
      * intros y; split; [discriminate | intros [H _]; discriminate H].
      * intros a; split; [discriminate |].
        intros [<- Hr]; lia.
Qed.

Lemma validateAmount_ok_witness :
  denotes (S754_finite false 5 1) 10 /\ 0 <= 10 <= 2 ^ 64 - 1 /\
  validateAmount (INumber (S754_finite false 5 1)) = Ok 10.
Proof.
  assert (H : denotes (S754_finite false 5 1) 10 /\ 0 <= 10 <= 2 ^ 64 - 1)
    by (split; [reflexivity | lia]).
  split; [exact (proj1 H) | split; [exact (proj2 H) |]].
  exact (proj2 (validateAmount_ok (INumber (S754_finite false 5 1)) 10) H).
Defined.

Lemma validateAmount_rejects_witness :
  (INumber (S754_finite false 5 (-1)) = INumber (S754_finite false 5 (-1)) /\
   ~ exists a, denotes (S754_finite false 5 (-1)) a) /\
  validateAmount (INumber (S754_finite false 5 (-1))) =
    Err (ENotWhole (S754_finite false 5 (-1))) /\
  validateAmount (IBigInt (2 ^ 64)) = Err (EOutOfRange (2 ^ 64)).
Proof.
  assert (H1 : INumber (S754_finite false 5 (-1)) = INumber (S754_finite false 5 (-1)) /\
               ~ exists a, denotes (S754_finite false 5 (-1)) a).
  { split; [reflexivity |]. intros [a Ha]. change (a * 2 = 5) in Ha; lia. }
  assert (H2 : 2 ^ 64 = 2 ^ 64 /\ (2 ^ 64 < 0 \/ 2 ^ 64 - 1 < 2 ^ 64))
    by (split; [reflexivity | right; lia]).
  split; [exact H1 | split].
  - exact (proj2 (proj1 (validateAmount_rejects (INumber (S754_finite false 5 (-1))))
                    (S754_finite false 5 (-1))) H1).
  - exact (proj2 (proj1 (proj2 (validateAmount_rejects (IBigInt (2 ^ 64)))) (2 ^ 64)) H2).
Defined.

End AmountProps.

Section ProxyExtras.

Import Proxy.

Lemma entries_for_delete (k cid : string) (m : list (string * jsstr)) :
  k <> cid -> entries_for k (map_delete cid m) = entries_for k m.
Proof.
  intros Hk; induction m as [|[k' v] m IH]; [reflexivity |].
  unfold entries_for, map_delete in *; cbn [filter fst].
  destruct (String.eqb_spec k' cid) as [->|Hne]; cbn [negb].
  - rewrite IH; replace (String.eqb cid k) with false; [reflexivity |].
    symmetry; apply String.eqb_neq; congruence.
  - cbn [filter fst]; destruct (String.eqb k' k); rewrite IH; reflexivity.
Qed.

Lemma entries_for_set (k cid : string) (v : jsstr) (m : list (string * jsstr)) :
  k <> cid -> entries_for k (map_set cid v m) = entries_for k m.
Proof.
  intros Hk.
  assert (Hcid : String.eqb cid k = false) by (apply String.eqb_neq; congruence).
  unfold map_set; destruct (existsb _ m).
  - induction m as [|[k' v'] m IH]; [reflexivity |].
    unfold entries_for in *; cbn [map filter fst].
    destruct (String.eqb_spec k' cid) as [->|Hne]; cbn [filter fst].
    + rewrite Hcid, IH; reflexivity.
    + destruct (String.eqb k' k); rewrite IH; reflexivity.
  - unfold entries_for; rewrite filter_app; cbn [filter fst]; rewrite Hcid, app_nil_r.
    reflexivity.
Qed.

(** A connection handler never touches the entries other connections keep
    in the shared [connections] map: whatever events it handles, the
    entries under every other client id are the same, in the same order. *)
Lemma handler_keeps_other_entries (cid k : string) (evs : list Event) :
  k <> cid -> forall s,
  entries_for k (conns (run cid s evs)) = entries_for k (conns s).
Proof.
  intros Hk; induction evs as [|e evs IH]; intros s; [reflexivity |].
  change (run cid s (e :: evs)) with (run cid (step cid s e) evs).
  rewrite IH; clear IH.
  destruct s as [ph crs trs cs tr]; destruct ph, e; cbn [step phase conns];
    repeat match goal with
           | |- context [if ?b then _ else _] => destruct b
           | |- context [match ?o with Some _ => _ | None => _ end] => destruct o as [[]|]
           end; cbn [conns];
    first [ reflexivity | apply entries_for_delete; exact Hk
          | apply entries_for_set; exact Hk ].
Qed.

Lemma returned_stable (cid : string) (evs : list Event) : forall s,
  phase s = PReturned -> client_rs s <> OPEN -> titan_rs s = Some CLOSED ->
  let s' := run cid s evs in
  phase s' = PReturned /\ conns s' = conns s /\ trace s' = trace s /\
  client_rs s' <> OPEN /\ titan_rs s' = Some CLOSED.
Proof.
  induction evs as [|e evs IH]; intros s Hp Hc Ht; cbv zeta.
  - repeat split; assumption.
  - change (run cid s (e :: evs)) with (run cid (step cid s e) evs).
    destruct s as [ph crs trs cs tr]; cbn in Hp, Hc, Ht; subst ph trs.
    destruct e; cbn [step phase client_rs titan_rs conns trace option_map];
      match goal with
      | |- context [run cid ?s' evs] =>
          assert (Hq : phase s' = PReturned /\ client_rs s' <> OPEN /\
                       titan_rs s' = Some CLOSED)
            by (cbn; repeat split; first [assumption | discriminate | reflexivity]);
          destruct Hq as [Q1 [Q2 Q3]];
          destruct (IH s' Q1 Q2 Q3) as [H1 [H2 [H3 [H4 H5]]]]
      end;
      rewrite H2, H3; repeat split; assumption.
Qed.

Lemma ws_close_not_open (r : ReadyState) : ws_close r <> OPEN.
Proof. destruct r; discriminate. Qed.

(** When [connectToTitan()] rejects (an upstream error, or the 10 s timer
    finding the socket not open), the downstream socket is closed with
    4002 and the handler is done: whatever events follow, no pairing is
    ever stored, nothing more is recorded and neither socket is open. *)
Lemma dial_failure_releases (cid : string) (s : PState) (uid : jsstr)
    (e : Event) (evs : list Event) :
  phase s = PDialing uid -> (e = ETitanError \/ e = ETitanTimeout) ->
  let s' := run cid s (e :: evs) in
  conns s' = conns s /\
  trace s' = trace s ++
    (if match e with ETitanTimeout => true | _ => false end
     then [ATerminateTitan] else []) ++
    [ACloseClient 4002 "Failed to connect to upstream"] /\
  client_rs s' <> OPEN /\ titan_rs s' = Some CLOSED.
Proof.
  intros Hp He; cbv zeta.
  change (run cid s (e :: evs)) with (run cid (step cid s e) evs).
  destruct s as [ph crs trs cs tr]; cbn in Hp; subst ph.
  destruct He as [-> | ->]; cbn [step phase];
    match goal with
    | |- context [run cid ?s' evs] =>
        destruct (returned_stable cid evs s' eq_refl (ws_close_not_open crs) eq_refl)
          as [_ [H2 [H3 [H4 H5]]]]
    end;
    rewrite H2, H3; unfold emit; cbn; repeat split; assumption.
Qed.

Lemma map_delete_idem (cid : string) (m : list (string * jsstr)) :
  map_delete cid (map_delete cid m) = map_delete cid m.
Proof.
  unfold map_delete; induction m as [|p m IH]; [reflexivity |].
  cbn [filter]; destruct (negb (String.eqb (fst p) cid)) eqn:E; cbn [filter];
    [rewrite E, IH |]; reflexivity + exact IH.
Qed.

(** Once a pairing is relaying, the handler's only change to the
    [connections] map is deleting its own entry: after any events the map
    is the one it had, or that map without the client's id. *)
Lemma relaying_only_deletes (cid : string) (evs : list Event) : forall s,
  phase s = PRelaying ->
  conns (run cid s evs) = conns s \/
  conns (run cid s evs) = map_delete cid (conns s).
Proof.
  induction evs as [|e evs IH]; intros s Hp; [left; reflexivity |].
  change (run cid s (e :: evs)) with (run cid (step cid s e) evs).
  destruct s as [ph crs trs cs tr]; cbn in Hp; subst ph.
  destruct e; cbn [step phase];
    repeat match goal with
           | |- context [if ?b then _ else _] => destruct b
           | |- context [match ?o with Some _ => _ | None => _ end] => destruct o as [[]|]
           end;
    match goal with
    | |- context [run cid ?s' evs] => destruct (IH s' eq_refl) as [H | H]
    end; rewrite H; cbn [conns];
    first [ left; reflexivity | right; reflexivity
          | right; apply map_delete_idem ].
Qed.

Lemma relaying_not_open (cid : string) (evs : list Event) : forall s,
  phase s = PRelaying ->
  phase (run cid s evs) = PRelaying /\
  (client_rs s <> OPEN -> client_rs (run cid s evs) <> OPEN) /\
  (titan_rs s <> Some OPEN -> titan_rs (run cid s evs) <> Some OPEN).
Proof.
  induction evs as [|e evs IH]; intros s Hp.
  - split; [exact Hp | split; intros H; exact H].
  - change (run cid s (e :: evs)) with (run cid (step cid s e) evs).
    destruct s as [ph crs trs cs tr]; cbn in Hp; subst ph.
    destruct e; cbn [step phase client_rs titan_rs];
      repeat match goal with
             | |- context [if ?b then _ else _] => destruct b
             | |- context [match ?o with Some _ => _ | None => _ end] =>
                 destruct o as [[]|]
             end;
      match goal with
      | |- context [run cid ?s' evs] => destruct (IH s' eq_refl) as [H1 [H2 H3]]
      end; (split; [exact H1 |]); cbn [client_rs titan_rs] in *;
      split; intros H; first [ apply H2 | apply H3 ]; cbn [option_map];
      first [ exact H | apply ws_close_not_open
            | let Hx := fresh in intros Hx;
              first [ discriminate Hx
                    | injection Hx as Hx; exact (ws_close_not_open _ Hx) ]
            | destruct trs as [r|]; cbn [option_map];
              [ let Hx := fresh in intros Hx; injection Hx as Hx;
                exact (ws_close_not_open _ Hx)
              | let Hx := fresh in intros Hx; discriminate Hx ] ].
Qed.
(** Once a pairing is relaying, no frame is forwarded to a socket that is
    no longer open: readyState never returns to OPEN, so after the
    downstream (upstream) socket leaves OPEN the frames written to it stay
    those already written, whatever events follow. *)
Lemma no_forward_to_closed_socket (cid : string) (evs : list Event) : forall s,
  phase s = PRelaying ->
  (client_rs s <> OPEN ->
   downstream_frames (trace (run cid s evs)) = downstream_frames (trace s)) /\
  (titan_rs s <> Some OPEN ->
   upstream_frames (trace (run cid s evs)) = upstream_frames (trace s)).
Proof.
  induction evs as [|e evs IH]; intros s Hp; [split; intros _; reflexivity |].
  change (run cid s (e :: evs)) with (run cid (step cid s e) evs).
  destruct (relaying_not_open cid [e] s Hp) as [P1 [P2 P3]].
  change (run cid s [e]) with (step cid s e) in P1, P2, P3.
  destruct (IH (step cid s e) P1) as [I1 I2].
  split; intros H; [rewrite (I1 (P2 H)) | rewrite (I2 (P3 H))]; clear - Hp H;
    destruct s as [ph crs trs cs tr]; cbn in Hp, H; subst ph;
    destruct crs, trs as [[]|], e; cbn; unfold downstream_frames, upstream_frames;
    rewrite ?flat_map_app; cbn; rewrite ?app_nil_r;
    first [ reflexivity | exfalso; apply H; reflexivity ].
Qed.

Lemma handler_keeps_other_entries_witness :
  ("c2"%string <> "c1"%string) /\
  entries_for "c2"%string
    (conns (run "c1"%string
              (handleClientConnection
                 [("c2"%string, js "user_x"); ("c1"%string, js "user_y")]
                 (Some (js "abcdefghijkl")))
              [ETitanOpen; EClientClose])) =
    [("c2"%string, js "user_x")].
Proof.
  split; [intros H; discriminate H |].
  rewrite (handler_keeps_other_entries "c1"%string "c2"%string [ETitanOpen; EClientClose]);
    [reflexivity | intros H; discriminate H].
Defined.

Lemma dial_failure_releases_witness :
  phase (handleClientConnection [] (Some (js "abcdefghijkl"))) = PDialing (js "user_abcdefgh") /\
  (ETitanTimeout = ETitanError \/ ETitanTimeout = ETitanTimeout) /\
  conns (run "c1"%string (handleClientConnection [] (Some (js "abcdefghijkl")))
           [ETitanTimeout; ETitanOpen; EClientMessage [Byte.x01]]) = [].
Proof.
  split; [reflexivity | split; [right; reflexivity |]].
  exact (proj1 (dial_failure_releases "c1"%string
                  (handleClientConnection [] (Some (js "abcdefghijkl")))
                  (js "user_abcdefgh") ETitanTimeout
                  [ETitanOpen; EClientMessage [Byte.x01]] eq_refl (or_intror eq_refl))).
Defined.

Lemma relaying_only_deletes_witness :
  let s := run "c1"%string (handleClientConnection [] (Some (js "abcdefghijkl"))) [ETitanOpen] in
  phase s = PRelaying /\
  (conns (run "c1"%string s [EClientMessage [Byte.x01]; ETitanClose]) = conns s \/
   conns (run "c1"%string s [EClientMessage [Byte.x01]; ETitanClose]) =
     map_delete "c1"%string (conns s)).
Proof.
  cbv zeta; split; [reflexivity |].
  exact (relaying_only_deletes "c1"%string [EClientMessage [Byte.x01]; ETitanClose]
           (run "c1"%string (handleClientConnection [] (Some (js "abcdefghijkl"))) [ETitanOpen])
           eq_refl).
Defined.

Lemma no_forward_to_closed_socket_witness :
  phase (run "c1"%string (handleClientConnection [] (Some (js "abcdefghijkl")))
           [ETitanOpen; EClientClose]) = PRelaying /\
  client_rs (run "c1"%string (handleClientConnection [] (Some (js "abcdefghijkl")))
               [ETitanOpen; EClientClose]) <> OPEN /\
  downstream_frames
    (trace (run "c1"%string (handleClientConnection [] (Some (js "abcdefghijkl")))
              [ETitanOpen; EClientClose; ETitanMessage [Byte.x02]])) = [].
Proof.
  assert (Hc : client_rs (run "c1"%string (handleClientConnection [] (Some (js "abcdefghijkl")))
                            [ETitanOpen; EClientClose]) <> OPEN)
    by (intros H; discriminate H).
  split; [reflexivity | split; [exact Hc |]].
  exact (proj1 (no_forward_to_closed_socket "c1"%string [ETitanMessage [Byte.x02]]
                  (run "c1"%string (handleClientConnection [] (Some (js "abcdefghijkl")))
                     [ETitanOpen; EClientClose]) eq_refl) Hc).
Defined.

End ProxyExtras.

Section RetryExtras.

Import Retry.
Local Open Scope Z_scope.
Context {C : Type}.

Lemma retry_delay_mono (a b : Z) : 0 <= a <= b -> retry_delay a <= retry_delay b.
Proof.
  intros H; unfold retry_delay.
  assert (2 ^ a <= 2 ^ b) by (apply Z.pow_le_mono_r; lia).
  lia.
Qed.

Lemma nondecreasing_cons (x : Z) (l : list Z) :
  (forall y, In y l -> x <= y) -> nondecreasing l = true ->
  nondecreasing (x :: l) = true.
Proof.
  intros Hx Hl; destruct l as [|y l]; [reflexivity |].
  change (nondecreasing (x :: y :: l)) with ((x <=? y) && nondecreasing (y :: l)).
  rewrite Hl, andb_true_r; apply Z.leb_le, Hx; left; reflexivity.
Qed.

Lemma retry_loop_bounds (m : Z) (conn : Z -> option C) (fuel : nat) : forall a,
  0 <= a ->
  let tr := fst (retry_loop m conn fuel a) in
  (List.length (filter is_connect tr) <= Z.to_nat (m - a))%nat /\
  (forall d, In d (sleeps tr) -> retry_delay (a + 1) <= d <= 30000) /\
  nondecreasing (sleeps tr) = true.
Proof.
  induction fuel as [|f IH]; intros a Ha; cbv zeta; cbn [retry_loop].
  - cbn; split; [lia | split; [intros d [] | reflexivity]].
  - destruct (a <? m) eqn:Hm; [| cbn; split; [lia | split; [intros d [] | reflexivity]]].
    apply Z.ltb_lt in Hm.
    destruct (conn a) as [c|].
    + cbn; split; [lia | split; [intros d [] | reflexivity]].
    + destruct (IH (a + 1) ltac:(lia)) as [H1 [H2 H3]]; cbv zeta in H1, H2, H3.
      destruct (retry_loop m conn f (a + 1)) as [tr r]; cbn [fst] in *.
      cbn [filter is_connect List.length sleeps flat_map app].
      fold (sleeps tr).
      assert (Hd : retry_delay (a + 1) <= 30000) by (unfold retry_delay; lia).
      split; [lia | split].
      * intros d [<- | Hd']; [split; lia |].
        destruct (H2 d Hd'); split; [| assumption].
        etransitivity; [| eassumption]; apply retry_delay_mono; lia.
      * apply nondecreasing_cons; [| exact H3].
        intros y Hy; destruct (H2 y Hy); etransitivity; [| eassumption].
        apply retry_delay_mono; lia.
Qed.

(** [connectWithRetry(maxRetries)] calls [V1Client.connect] at most
    [maxRetries] times (never when [maxRetries <= 0]); every delay it
    sleeps lies between 2 s and the 30 s cap, and the delays never
    decrease. *)
Lemma connectWithRetry_bounds (m : Z) (conn : Z -> option C) :
  let tr := fst (connectWithRetry m conn) in
  (List.length (filter is_connect tr) <= Z.to_nat m)%nat /\
  (forall d, In d (sleeps tr) -> 2000 <= d <= 30000) /\
  nondecreasing (sleeps tr) = true.
Proof.
  cbv zeta; unfold connectWithRetry.
  destruct (retry_loop_bounds m conn (S (Z.to_nat m)) 0 ltac:(lia)) as [H1 [H2 H3]].
  cbv zeta in H1, H2, H3.
  split; [rewrite Z.sub_0_r in H1; exact H1 | split; [| exact H3]].
  intros d Hd; exact (H2 d Hd).
Qed.

End RetryExtras.

Lemma connectWithRetry_bounds_witness :
  (List.length (filter Retry.is_connect (fst (Retry.connectWithRetry 3 (fun _ : Z => @None unit))))
     <= 3)%nat /\
  Retry.nondecreasing (Retry.sleeps (fst (Retry.connectWithRetry 3 (fun _ : Z => @None unit))))
    = true.
Proof.
  destruct (@connectWithRetry_bounds unit 3 (fun _ => None)) as [H1 [_ H3]].
  split; [exact H1 | exact H3].
Defined.

